(** * python-gearman: the worker core ([gearman/worker.py])

    A shallow embedding of [GearmanWorker] and of the exception classes of
    [gearman/errors.py].  Python objects used as dictionary keys
    (connections, command handlers) are identified by a number; dictionaries
    are finite maps; methods are computations in a state-and-exception monad
    over the worker object and the part of the outside world it talks to
    (sockets, handlers, the random generator).  Calls made on the external
    collaborators are recorded in a trace. *)

From Stdlib Require Import QArith.
From stdpp Require Import gmap strings list fin_maps.

Set Warnings "-clear-no-such-hyp".

Open Scope Z_scope.
Open Scope string_scope.
Open Scope nat_scope.
Open Scope list_scope.

(** ** Identities of the collaborating objects *)

Abbreviation Connection := nat.
Abbreviation Handler := nat.

(** ** Exceptions ([gearman/errors.py] and the builtins the worker meets) *)

Module errors.

(** A value used as a dictionary key, as [KeyError] reports it. *)
Inductive key :=
| KeyName (function_name : string)
| KeyHandler (command_handler : Handler)
| KeyConnection (conn : Connection).

Inductive exn :=
(* class GearmanError(Exception) and its subclasses *)
| GearmanError (msg : string)
| ConnectionError (conn : Connection)
| ServerUnavailable (connection_list : list Connection)
| CommandError (msg : string)
| InvalidResponse (msg : string)
| InvalidClientState (msg : string)
| InvalidWorkerState (msg : string)
| InvalidManagerState (msg : string)
| ProtocolError (msg : string)
(* builtins deriving from Exception *)
| KeyError (k : key)
| AttributeError (msg : string)
| OtherException (msg : string)
(* builtins deriving from BaseException only *)
| KeyboardInterrupt
| SystemExit (code : Z).

(** [isinstance(e, Exception)]: what [except Exception] catches. *)
Definition isinstance_Exception (e : exn) : bool :=
  match e with
  | KeyboardInterrupt | SystemExit _ => false
  | _ => true
  end.

(** [isinstance(e, GearmanError)]. *)
Definition isinstance_GearmanError (e : exn) : bool :=
  match e with
  | GearmanError _ | ConnectionError _ | ServerUnavailable _
  | CommandError _ | InvalidResponse _ | InvalidClientState _
  | InvalidWorkerState _ | InvalidManagerState _ | ProtocolError _ => true
  | _ => false
  end.

(** [isinstance(e, ConnectionError)]. *)
Definition isinstance_ConnectionError (e : exn) : bool :=
  match e with ConnectionError _ => true | _ => false end.

(** The invalid-state classes of [errors.py]. *)
Definition isinstance_InvalidState (e : exn) : bool :=
  match e with
  | InvalidClientState _ | InvalidWorkerState _ | InvalidManagerState _ => true
  | _ => false
  end.

End errors.
Export errors.

(** ** Jobs and callbacks *)

(** Modelled from the spec: [gearman.job.GearmanJob] is not part of the
    sources at hand; the worker builds it from a connection, a job handle, a
    function name, a unique id and the payload, and reads [conn] and
    [func]. *)
Record GearmanJob := mkGearmanJob {
  conn : Connection;
  handle : string;
  func : string;
  unique : string;
  data : string
}.

(** What a call of a registered callback on a job does: it returns a result
    or raises. *)
Inductive cb_outcome :=
| CbReturn (job_result : string)
| CbRaise (e : exn).

Definition Callback := GearmanJob → cb_outcome.

(** ** The trace of calls on external collaborators *)

(** The protocol-level calls a command handler offers for a job. *)
Inductive Message :=
| WorkStatus (j : GearmanJob) (numerator denominator : Z)
| WorkComplete (j : GearmanJob) (d : string)
| WorkFail (j : GearmanJob)
| WorkException (j : GearmanJob) (d : string)
| WorkData (j : GearmanJob) (d : string)
| WorkWarning (j : GearmanJob) (d : string).

Inductive Event :=
| EvConnect (c : Connection) (ok : bool)
| EvOnConnect (h : Handler)
| EvSetAbilities (h : Handler) (names : list string)
| EvSetClientId (h : Handler) (client_id : string)
| EvSend (h : Handler) (m : Message)
| EvBeforePoll
| EvPoll (alive : list Connection) (timeout : Q)
| EvAfterPoll (any_activity : bool)
| EvClose (c : Connection) (ok : bool).

(** ** The worker object and its surroundings *)

Record GearmanWorker := mkGearmanWorker {
  (* attributes inherited from GearmanConnectionManager *)
  connection_list : list Connection;
  connection_to_handler_map : gmap Connection Handler;
  handler_to_connection_map : gmap Handler Connection;
  (* attributes set by GearmanWorker.__init__ *)
  worker_abilities : gmap string Callback;
  worker_client_id : option string;
  command_handler_holding_job_lock : option Handler;
  (* the world outside: sockets that are up, servers that would accept a
     connection now, sockets whose close would fail now, the state of the
     random generator, and the calls made so far *)
  connected : gset Connection;
  reachable : gset Connection;
  close_fails : gset Connection;
  rng : nat;
  trace : list Event
}.

Definition set_worker_abilities (f : gmap string Callback → gmap string Callback)
    (w : GearmanWorker) : GearmanWorker :=
  mkGearmanWorker (connection_list w) (connection_to_handler_map w)
    (handler_to_connection_map w) (f (worker_abilities w)) (worker_client_id w)
    (command_handler_holding_job_lock w) (connected w) (reachable w) (close_fails w) (rng w)
    (trace w).

Definition set_worker_client_id (i : option string) (w : GearmanWorker) : GearmanWorker :=
  mkGearmanWorker (connection_list w) (connection_to_handler_map w)
    (handler_to_connection_map w) (worker_abilities w) i
    (command_handler_holding_job_lock w) (connected w) (reachable w) (close_fails w) (rng w)
    (trace w).

Definition set_holder (h : option Handler) (w : GearmanWorker) : GearmanWorker :=
  mkGearmanWorker (connection_list w) (connection_to_handler_map w)
    (handler_to_connection_map w) (worker_abilities w) (worker_client_id w)
    h (connected w) (reachable w) (close_fails w) (rng w) (trace w).

Definition set_connected (f : gset Connection → gset Connection)
    (w : GearmanWorker) : GearmanWorker :=
  mkGearmanWorker (connection_list w) (connection_to_handler_map w)
    (handler_to_connection_map w) (worker_abilities w) (worker_client_id w)
    (command_handler_holding_job_lock w) (f (connected w)) (reachable w) (close_fails w) (rng w)
    (trace w).

Definition set_rng (n : nat) (w : GearmanWorker) : GearmanWorker :=
  mkGearmanWorker (connection_list w) (connection_to_handler_map w)
    (handler_to_connection_map w) (worker_abilities w) (worker_client_id w)
    (command_handler_holding_job_lock w) (connected w) (reachable w) (close_fails w) n
    (trace w).

Definition log (e : Event) (w : GearmanWorker) : GearmanWorker :=
  mkGearmanWorker (connection_list w) (connection_to_handler_map w)
    (handler_to_connection_map w) (worker_abilities w) (worker_client_id w)
    (command_handler_holding_job_lock w) (connected w) (reachable w) (close_fails w) (rng w)
    (trace w ++ [e]).

(** The worker after further calls have been recorded. *)
Definition add_trace (evs : list Event) (w : GearmanWorker) : GearmanWorker :=
  mkGearmanWorker (connection_list w) (connection_to_handler_map w)
    (handler_to_connection_map w) (worker_abilities w) (worker_client_id w)
    (command_handler_holding_job_lock w) (connected w) (reachable w) (close_fails w) (rng w)
    (trace w ++ evs).

(** The calls a reconnect pass makes on its collaborators. *)
Definition is_connect_event (e : Event) : bool :=
  match e with
  | EvConnect _ _ | EvOnConnect _ => true
  | _ => false
  end.

(** [w'] differs from [w] at most in the sockets that are up, the random
    generator, and by further calls recorded, all of them made by a reconnect
    pass. *)
Definition reconnect_frame (w w' : GearmanWorker) : Prop :=
  connection_list w' = connection_list w
  ∧ connection_to_handler_map w' = connection_to_handler_map w
  ∧ handler_to_connection_map w' = handler_to_connection_map w
  ∧ worker_abilities w' = worker_abilities w
  ∧ worker_client_id w' = worker_client_id w
  ∧ command_handler_holding_job_lock w' = command_handler_holding_job_lock w
  ∧ reachable w' = reachable w
  ∧ close_fails w' = close_fails w
  ∧ ∃ evs, trace w' = trace w ++ evs ∧ Forall (λ e, is_connect_event e = true) evs.

(** ** Computations: state passing with exceptions

    A raised exception leaves the mutations made so far in place, as in
    Python. *)

Inductive result (A : Type) :=
| Ok (a : A)
| Raise (e : exn).
Arguments Ok {A} a.
Arguments Raise {A} e.

Definition M (A : Type) : Type := GearmanWorker → result A * GearmanWorker.

#[global] Instance M_ret : MRet M := λ A a w, (Ok a, w).
#[global] Instance M_bind : MBind M := λ A B f m w,
  match m w with
  | (Ok a, w') => f a w'
  | (Raise e, w') => (Raise e, w')
  end.

Definition get : M GearmanWorker := λ w, (Ok w, w).
Definition modify (f : GearmanWorker → GearmanWorker) : M unit := λ w, (Ok tt, f w).
Definition raise {A} (e : exn) : M A := λ w, (Raise e, w).

(** [try: body / except <caught>: return handler(e)], followed by
    [return cont(a)] after the [try] statement. *)
Definition try_except {A B} (body : M A) (caught : exn → bool)
    (handler : exn → M B) (cont : A → M B) : M B := λ w,
  match body w with
  | (Ok a, w') => cont a w'
  | (Raise e, w') => if caught e then handler e w' else (Raise e, w')
  end.

(** [for x in xs: body(x)] *)
Fixpoint for_each {A} (xs : list A) (body : A → M unit) : M unit :=
  match xs with
  | [] => mret tt
  | x :: xs' => body x ≫= λ _, for_each xs' body
  end.

(** [d[k]] on a dictionary: [KeyError] when the key is missing. *)
Definition getitem {K V} `{Countable K} (d : gmap K V) (k : K) (as_key : K → key) : M V :=
  match d !! k with
  | Some v => mret v
  | None => raise (KeyError (as_key k))
  end.

(** ** The command handler and the connection, as the worker uses them *)

(** Modelled from the spec: the command handler
    ([gearman.worker_handler.GearmanWorkerCommandHandler]) is not part of the
    sources at hand; its methods [set_abilities], [set_client_id],
    [on_connect] and [send_job_*] are calls through a fixed interface, which
    this model records. *)
Module handler.
Definition set_abilities (h : Handler) (names : list string) : M unit :=
  modify (log (EvSetAbilities h names)).
Definition set_client_id (h : Handler) (client_id : string) : M unit :=
  modify (log (EvSetClientId h client_id)).
Definition on_connect (h : Handler) : M unit :=
  modify (log (EvOnConnect h)).
Definition send (h : Handler) (m : Message) : M unit :=
  modify (log (EvSend h m)).
End handler.

(** Modelled from the spec: the connection class is not part of the sources
    at hand; [is_connected()] reads the connection's own state, and
    [connect()] fails with a connection error when the server does not
    accept.  Of [close()] the spec fixes no failure but speaks of a close that
    fails; the model lets the close of a connection in [close_fails] raise
    the connection's error and leave the socket as it is. *)
Module connection.
Definition is_connected (c : Connection) (w : GearmanWorker) : bool :=
  bool_decide (c ∈ connected w).
Definition connect (c : Connection) : M unit := λ w,
  if bool_decide (c ∈ reachable w)
  then (Ok tt, log (EvConnect c true) (set_connected (λ s, {[c]} ∪ s) w))
  else (Raise (ConnectionError c), log (EvConnect c false) w).
Definition close (c : Connection) : M unit := λ w,
  if bool_decide (c ∈ close_fails w)
  then (Raise (ConnectionError c), log (EvClose c false) w)
  else (Ok tt, log (EvClose c true) (set_connected (λ s, s ∖ {[c]}) w)).
End connection.

(** ** [class GearmanWorker] *)

(** [dict.keys()] / [dict.iterkeys()]: the keys, in the dictionary's own
    order. *)
Definition keys {K V} `{Countable K} (d : gmap K V) : list K := (map_to_list d).*1.

Definition broadcast_abilities : M unit :=
  w ← get;
  for_each (keys (handler_to_connection_map w)) (λ command_handler,
    w' ← get;
    handler.set_abilities command_handler (keys (worker_abilities w'))).

Definition register_function (function_name : string) (callback_function : Callback) : M string :=
  modify (set_worker_abilities (<[function_name := callback_function]>));;
  broadcast_abilities;;
  mret function_name.

Definition unregister_function (function_name : string) : M string :=
  modify (set_worker_abilities (delete function_name));;
  broadcast_abilities;;
  mret function_name.

Definition set_client_id (client_id : string) : M string :=
  modify (set_worker_client_id (Some client_id));;
  w ← get;
  for_each (keys (handler_to_connection_map w)) (λ command_handler,
    handler.set_client_id command_handler client_id);;
  mret client_id.

Definition set_job_lock (command_handler : Handler) (lock : bool) : M bool :=
  w ← get;
  if negb (bool_decide (command_handler ∈ dom (handler_to_connection_map w)))
  then mret false
  else
    let failed_lock :=
      lock && negb (bool_decide (command_handler_holding_job_lock w = None)) in
    let failed_unlock :=
      negb lock && negb (bool_decide (command_handler_holding_job_lock w = Some command_handler)) in
    if failed_lock || failed_unlock
    then mret false
    else
      (if lock then modify (set_holder (Some command_handler))
       else if negb lock then modify (set_holder None)
       else mret tt);;
      mret true.

Definition check_job_lock (command_handler : Handler) (w : GearmanWorker) : bool :=
  bool_decide (command_handler_holding_job_lock w = Some command_handler).

(** A caller issuing [set_job_lock] calls one after the other; the answers
    in order. *)
Fixpoint set_job_lock_seq (calls : list (Handler * bool)) : M (list bool) :=
  match calls with
  | [] => mret []
  | (command_handler, lock) :: calls' =>
      b ← set_job_lock command_handler lock;
      bs ← set_job_lock_seq calls';
      mret (b :: bs)
  end.

Definition create_job (command_handler : Handler) (job_handle function_name unique data : string)
    : M GearmanJob :=
  w ← get;
  current_connection ← getitem (handler_to_connection_map w) command_handler KeyHandler;
  mret (mkGearmanJob current_connection job_handle function_name unique data).

Definition _get_handler_for_job (current_job : GearmanJob) : M Handler :=
  w ← get;
  getitem (connection_to_handler_map w) (conn current_job) KeyConnection.

Definition send_job_status (current_job : GearmanJob) (numerator denominator : Z) : M unit :=
  current_handler ← _get_handler_for_job current_job;
  handler.send current_handler (WorkStatus current_job numerator denominator).

Definition send_job_complete (current_job : GearmanJob) (data : string) : M unit :=
  current_handler ← _get_handler_for_job current_job;
  handler.send current_handler (WorkComplete current_job data).

Definition send_job_failure (current_job : GearmanJob) : M unit :=
  current_handler ← _get_handler_for_job current_job;
  handler.send current_handler (WorkFail current_job).

Definition send_job_exception (current_job : GearmanJob) (data : string) : M unit :=
  current_handler ← _get_handler_for_job current_job;
  handler.send current_handler (WorkException current_job data);;
  handler.send current_handler (WorkFail current_job).

Definition send_job_data (current_job : GearmanJob) (data : string) : M unit :=
  current_handler ← _get_handler_for_job current_job;
  handler.send current_handler (WorkData current_job data).

Definition send_job_warning (current_job : GearmanJob) (data : string) : M unit :=
  current_handler ← _get_handler_for_job current_job;
  handler.send current_handler (WorkWarning current_job data).

Definition on_job_exception (current_job : GearmanJob) (exc_info : exn) : M bool :=
  send_job_failure current_job;;
  mret false.

Definition on_job_complete (current_job : GearmanJob) (job_result : string) : M bool :=
  send_job_complete current_job job_result;;
  mret true.

(** Calling a callback: its result, or the exception it raises. *)
Definition call (function_callback : Callback) (current_job : GearmanJob) : M string :=
  match function_callback current_job with
  | CbReturn job_result => mret job_result
  | CbRaise e => raise e
  end.

Definition on_job_execute (current_job : GearmanJob) : M bool :=
  try_except
    (w ← get;
     function_callback ← getitem (worker_abilities w) (func current_job) KeyName;
     call function_callback current_job)
    isinstance_Exception
    (λ exc_info, on_job_exception current_job exc_info)
    (λ job_result, on_job_complete current_job job_result).

Definition reconnect (c : Connection) : M unit :=
  w ← get;
  if connection.is_connected c w then mret tt
  else
    try_except (connection.connect c) isinstance_ConnectionError
      (λ _, mret tt)
      (λ _,
        w' ← get;
        match connection_to_handler_map w' !! c with
        | Some command_handler => handler.on_connect command_handler
        | None => raise (AttributeError "'NoneType' object has no attribute 'on_connect'")
        end).

(** [before_poll] and [after_poll] as [GearmanWorker] defines them. *)
Definition before_poll (w : GearmanWorker) : bool * GearmanWorker := (true, w).
Definition after_poll (any_activity : bool) (w : GearmanWorker) : bool * GearmanWorker :=
  (true, w).

(** A call that returns a boolean and may change the state. *)
Definition returns (f : GearmanWorker → bool * GearmanWorker) : M bool := λ w,
  let '(b, w') := f w in (Ok b, w').

Definition POLL_TIMEOUT_IN_SECONDS : Q := 60.

(** The parts of a run the worker does not decide: [random.shuffle], what
    [self.before_poll] and [self.after_poll] resolve to (a subclass may
    override them), and the multiplexed poll of the connection manager. *)
Section Worker.

(** [random.shuffle]: from the generator's state and a list, the shuffled
    list and the next state. *)
Variable shuffle : nat → list Connection → list Connection * nat.

Variable self_before_poll : GearmanWorker → bool * GearmanWorker.
Variable self_after_poll : bool → GearmanWorker → bool * GearmanWorker.

(** Modelled from the spec: [poll_connections_once] belongs to
    [GearmanConnectionManager], which is not part of the sources at hand; it
    polls the given connections with a timeout, drives the handlers, and
    returns whether there was any activity. *)
Variable self_poll_connections_once :
  list Connection → Q → GearmanWorker → bool * GearmanWorker.

Definition random_shuffle (l : list Connection) : M (list Connection) := λ w,
  let '(l', g) := shuffle (rng w) l in (Ok l', set_rng g w).

Definition get_alive_connections : M (list Connection) :=
  w ← get;
  shuffled_list ← random_shuffle (connection_list w);
  for_each shuffled_list reconnect;;
  w' ← get;
  mret (filter (λ c, connection.is_connected c w' = true) shuffled_list).

(** How one pass through the body of the [while] loop ends: with [break], or
    at the end of the body with the new value of [continue_working]. *)
Inductive loop_ctl :=
| Break
| Next (continue_working : bool).

(** The body of the loop of [work]; besides the control outcome it yields the
    value assigned to [alive_connections]. *)
Definition work_iteration (poll_timeout : Q) : M (list Connection * loop_ctl) :=
  alive_connections ← get_alive_connections;
  if bool_decide (alive_connections = [])
  then w ← get; raise (ServerUnavailable (connection_list w))
  else
    start_working ← (modify (log EvBeforePoll);; returns self_before_poll);
    if negb start_working then mret (alive_connections, Break)
    else
      had_connection_activity ←
        (modify (log (EvPoll alive_connections poll_timeout));;
         returns (self_poll_connections_once alive_connections poll_timeout));
      continue_working ←
        (modify (log (EvAfterPoll had_connection_activity));;
         returns (self_after_poll had_connection_activity));
      mret (alive_connections, Next continue_working).

(** The [while continue_working] loop, bounded by [fuel] passes; [None] when
    the bound is reached.  It yields the final value of
    [alive_connections]. *)
Fixpoint work_loop (fuel : nat) (poll_timeout : Q) (continue_working : bool)
    (alive_connections : list Connection) (w : GearmanWorker)
    : option (result (list Connection) * GearmanWorker) :=
  if negb continue_working then Some (Ok alive_connections, w)
  else
    match fuel with
    | 0 => None
    | S fuel' =>
        match work_iteration poll_timeout w with
        | (Raise e, w') => Some (Raise e, w')
        | (Ok (alive_connections', Break), w') => Some (Ok alive_connections', w')
        | (Ok (alive_connections', Next continue_working'), w') =>
            work_loop fuel' poll_timeout continue_working' alive_connections' w'
        end
    end.

Definition work (fuel : nat) (poll_timeout : Q) (w : GearmanWorker)
    : option (result unit * GearmanWorker) :=
  match work_loop fuel poll_timeout true [] w with
  | None => None
  | Some (Raise e, w') => Some (Raise e, w')
  | Some (Ok alive_connections, w') =>
      Some (for_each alive_connections connection.close w')
  end.

(** The states in which [work], started in the first state, is at the top of
    the loop body. *)
Inductive at_loop_top (poll_timeout : Q) : GearmanWorker → GearmanWorker → Prop :=
| at_loop_top_first w :
    at_loop_top poll_timeout w w
| at_loop_top_next w w1 w2 alive_connections :
    work_iteration poll_timeout w = (Ok (alive_connections, Next true), w1) →
    at_loop_top poll_timeout w1 w2 →
    at_loop_top poll_timeout w w2.

End Worker.

(** ** A small worker to run the definitions on

    Two connections [1] and [2] with the handlers [10] and [20]; the server
    behind connection [2] accepts connections, the one behind [1] does not;
    no ability registered, the job lock free. *)
Module example.

Definition w0 : GearmanWorker :=
  mkGearmanWorker [1; 2] {[1 := 10; 2 := 20]} {[10 := 1; 20 := 2]}
    ∅ None None ∅ {[2]} ∅ 0 [].

Definition echo_job : GearmanJob := mkGearmanJob 1 "H:1" "echo" "u1" "abc".
Definition reverse_job : GearmanJob := mkGearmanJob 1 "H:2" "reverse" "u2" "abc".

Definition reverse_callback : Callback := λ j, CbReturn (String.rev (data j)).
Definition failing_callback : Callback := λ j, CbRaise (OtherException "boom").

(** A worker with ["reverse"] registered. *)
Definition w_reverse : GearmanWorker := set_worker_abilities (λ _, {[ "reverse" := reverse_callback ]}) w0.
Definition w_failing : GearmanWorker := set_worker_abilities (λ _, {[ "reverse" := failing_callback ]}) w0.

(** A shuffle that reverses the list. *)
Definition shuffle_reverse (g : nat) (l : list Connection) : list Connection * nat :=
  (reverse l, S g).

(** Hooks of a subclass that stops the loop, and a poll that sees nothing. *)
Definition stop_before_poll (w : GearmanWorker) : bool * GearmanWorker := (false, w).
Definition stop_after_poll (any_activity : bool) (w : GearmanWorker) : bool * GearmanWorker :=
  (false, w).
Definition idle_poll (alive : list Connection) (timeout : Q) (w : GearmanWorker)
    : bool * GearmanWorker := (false, w).


(** A worker none of whose servers accepts a connection. *)
Definition w_down : GearmanWorker :=
  mkGearmanWorker [1; 2] {[1 := 10; 2 := 20]} {[10 := 1; 20 := 2]}
    ∅ None None ∅ ∅ ∅ 0 [].

End example.

(** ** Construction of the worker *)

(** Modelled from the spec: [GearmanConnectionManager.__init__] is not part
    of the sources at hand; [base] is the object as it leaves it (connection
    list and the two maps set up, [blocking_timeout] stored).
    [GearmanWorker.__init__] then sets its own three attributes. *)
Definition __init__ (base : GearmanWorker) : GearmanWorker :=
  set_holder None (set_worker_client_id None (set_worker_abilities (λ _, ∅) base)).

(** ** Further workers and jobs to run the definitions on *)
Module scenario.

(** A job whose connection [9] the worker does not know. *)
Definition orphan_job : GearmanJob := mkGearmanJob 9 "H:9" "reverse" "u9" "abc".

(** A callback interrupted from the keyboard. *)
Definition interrupted_callback : Callback := λ j, CbRaise KeyboardInterrupt.
Definition w_interrupted : GearmanWorker :=
  set_worker_abilities (λ _, {[ "reverse" := interrupted_callback ]}) example.w0.

(** The example worker with both sockets up. *)
Definition w_up : GearmanWorker :=
  mkGearmanWorker [1; 2] {[1 := 10; 2 := 20]} {[10 := 1; 20 := 2]}
    ∅ None None {[1; 2]} {[2]} ∅ 0 [].

(** A worker whose connection [3] was appended to the list without a
    handler; its server accepts. *)
Definition w_unhandled : GearmanWorker :=
  mkGearmanWorker [1; 3] {[1 := 10]} {[10 := 1]}
    ∅ None None ∅ {[3]} ∅ 0 [].

(** A callback that fails with one of the errors of [errors.py]. *)
Definition unavailable_callback : Callback := λ j, CbRaise (ServerUnavailable []).
Definition w_unavailable : GearmanWorker :=
  set_worker_abilities (λ _, {[ "reverse" := unavailable_callback ]}) example.w0.

End scenario.

(** * Properties *)

(** Unfolding of the monad's operations. *)
Ltac run :=
  repeat (progress (cbv beta delta
    [mbind mret M_bind M_ret get modify raise try_except getitem
     handler.send handler.set_abilities handler.set_client_id
     handler.on_connect] iota; simpl)).

(** ** The job lock *)

Lemma set_job_lock_unknown (h : Handler) (lock : bool) (w : GearmanWorker) :
  h ∉ dom (handler_to_connection_map w) → set_job_lock h lock w = (Ok false, w).
Proof.
  intros Hh. unfold set_job_lock. run.
  by rewrite bool_decide_eq_false_2.
Qed.

Lemma set_job_lock_acquire_held (h h' : Handler) (w : GearmanWorker) :
  command_handler_holding_job_lock w = Some h' →
  set_job_lock h true w = (Ok false, w).
Proof.
  intros Hheld. unfold set_job_lock. run.
  case_bool_decide; simpl; [|done].
  rewrite Hheld. by rewrite bool_decide_eq_false_2.
Qed.

Lemma set_job_lock_release_not_holder (h : Handler) (w : GearmanWorker) :
  command_handler_holding_job_lock w ≠ Some h →
  set_job_lock h false w = (Ok false, w).
Proof.
  intros Hne. unfold set_job_lock. run.
  case_bool_decide; simpl; [|done].
  by rewrite bool_decide_eq_false_2.
Qed.

Lemma set_job_lock_acquire_free (h : Handler) (w : GearmanWorker) :
  h ∈ dom (handler_to_connection_map w) →
  command_handler_holding_job_lock w = None →
  set_job_lock h true w = (Ok true, set_holder (Some h) w).
Proof.
  intros Hh Hfree. unfold set_job_lock. run.
  rewrite bool_decide_eq_true_2 by done. simpl.
  by rewrite bool_decide_eq_true_2.
Qed.

Lemma set_job_lock_release_holder (h : Handler) (w : GearmanWorker) :
  h ∈ dom (handler_to_connection_map w) →
  command_handler_holding_job_lock w = Some h →
  set_job_lock h false w = (Ok true, set_holder None w).
Proof.
  intros Hh Hheld. unfold set_job_lock. run.
  rewrite bool_decide_eq_true_2 by done. simpl.
  by rewrite bool_decide_eq_true_2.
Qed.

(** Every call of [set_job_lock] is one of: a refusal that changes nothing,
    an acquisition of the free lock by a known handler, a release by the
    holder. *)
Lemma set_job_lock_cases (h : Handler) (lock : bool) (w : GearmanWorker) :
  set_job_lock h lock w = (Ok false, w)
  ∨ (lock = true ∧ h ∈ dom (handler_to_connection_map w)
     ∧ command_handler_holding_job_lock w = None
     ∧ set_job_lock h lock w = (Ok true, set_holder (Some h) w))
  ∨ (lock = false ∧ h ∈ dom (handler_to_connection_map w)
     ∧ command_handler_holding_job_lock w = Some h
     ∧ set_job_lock h lock w = (Ok true, set_holder None w)).
Proof.
  destruct (decide (h ∈ dom (handler_to_connection_map w))) as [Hh|Hh];
    [|left; by apply set_job_lock_unknown].
  destruct lock.
  - destruct (command_handler_holding_job_lock w) as [h'|] eqn:Hheld.
    + left. by eapply set_job_lock_acquire_held.
    + right; left. by rewrite set_job_lock_acquire_free.
  - destruct (decide (command_handler_holding_job_lock w = Some h)) as [Hheld|Hne].
    + right; right. by rewrite set_job_lock_release_holder.
    + left. by apply set_job_lock_release_not_holder.
Qed.

(** C3.  For handlers [h1] and [h2] known to the worker: acquiring while any
    handler (the requester included) holds the lock returns false; releasing
    while the holder is not the releaser returns false; an unknown handler
    gets false and no exception; otherwise the holder is set or cleared and
    true is returned.  Hence once [h1] has acquired, its release and then an
    acquire by [h2] both succeed, and of two acquires in a row the second
    fails. *)
Theorem set_job_lock_protocol (w : GearmanWorker) (h1 h2 : Handler)
    (Hh1 : h1 ∈ dom (handler_to_connection_map w))
    (Hh2 : h2 ∈ dom (handler_to_connection_map w)) :
  (∀ h, command_handler_holding_job_lock w = Some h →
        set_job_lock h1 true w = (Ok false, w))
  ∧ (command_handler_holding_job_lock w ≠ Some h1 →
     set_job_lock h1 false w = (Ok false, w))
  ∧ (∀ h lock, h ∉ dom (handler_to_connection_map w) →
               set_job_lock h lock w = (Ok false, w))
  ∧ (command_handler_holding_job_lock w = None →
     set_job_lock h1 true w = (Ok true, set_holder (Some h1) w))
  ∧ (command_handler_holding_job_lock w = Some h1 →
     set_job_lock h1 false w = (Ok true, set_holder None w))
  ∧ (∀ w1, set_job_lock h1 true w = (Ok true, w1) →
       ∃ w2 w3, set_job_lock h1 false w1 = (Ok true, w2)
                ∧ set_job_lock h2 true w2 = (Ok true, w3)
                ∧ command_handler_holding_job_lock w3 = Some h2)
  ∧ (∀ r1 w1, set_job_lock h1 true w = (r1, w1) →
              set_job_lock h2 true w1 = (Ok false, w1)).
Proof.
  split_and!.
  - intros h Hheld. by eapply set_job_lock_acquire_held.
  - apply set_job_lock_release_not_holder.
  - intros h lock. apply set_job_lock_unknown.
  - by apply set_job_lock_acquire_free.
  - by apply set_job_lock_release_holder.
  - intros w1 Hacq.
    destruct (set_job_lock_cases h1 true w) as [Hc|[(_ & _ & Hfree & Hc)|(? & _)]];
      [congruence| |done].
    rewrite Hc in Hacq. injection Hacq as <-.
    exists (set_holder None w), (set_holder (Some h2) w). split_and!.
    + by rewrite set_job_lock_release_holder.
    + by rewrite set_job_lock_acquire_free.
    + done.
  - intros r1 w1 Hacq.
    destruct (set_job_lock_cases h1 true w) as [Hc|[(_ & _ & Hfree & Hc)|(? & _)]];
      [| |done]; rewrite Hc in Hacq; injection Hacq as <- <-.
    + destruct (command_handler_holding_job_lock w) as [h'|] eqn:Hheld.
      * by eapply set_job_lock_acquire_held.
      * rewrite set_job_lock_acquire_free in Hc by done. congruence.
    + by eapply set_job_lock_acquire_held.
Qed.

Lemma set_job_lock_protocol_witness :
  10 ∈ dom (handler_to_connection_map example.w0)
  ∧ 20 ∈ dom (handler_to_connection_map example.w0)
  ∧ ∃ w2 w3,
      set_job_lock 10 false (set_holder (Some 10) example.w0) = (Ok true, w2)
      ∧ set_job_lock 20 true w2 = (Ok true, w3)
      ∧ command_handler_holding_job_lock w3 = Some 20.
Proof.
  assert (H10 : 10 ∈ dom (handler_to_connection_map example.w0)) by (vm_compute; set_solver).
  assert (H20 : 20 ∈ dom (handler_to_connection_map example.w0)) by (vm_compute; set_solver).
  split_and!; [done..|].
  destruct (set_job_lock_protocol example.w0 10 20 H10 H20)
    as (_ & _ & _ & Hacq & _ & Hseq & _).
  apply Hseq. by apply Hacq.
Defined.

(** A sequence of calls never raises, answers every call, leaves the handler
    map alone, and ends with the holder it started with, with no holder, or
    with a known handler that asked for the lock. *)
Lemma set_job_lock_seq_run (calls : list (Handler * bool)) (w : GearmanWorker) :
  ∃ bs w', set_job_lock_seq calls w = (Ok bs, w')
    ∧ length bs = length calls
    ∧ handler_to_connection_map w' = handler_to_connection_map w
    ∧ (command_handler_holding_job_lock w' = command_handler_holding_job_lock w
       ∨ command_handler_holding_job_lock w' = None
       ∨ ∃ h, command_handler_holding_job_lock w' = Some h
              ∧ h ∈ dom (handler_to_connection_map w) ∧ (h, true) ∈ calls).
Proof.
  revert w. induction calls as [|[h lock] calls IH]; intros w; simpl.
  - eexists _, _. split_and!; [done..|by left].
  - run.
    assert (∃ b w1, set_job_lock h lock w = (Ok b, w1)
              ∧ handler_to_connection_map w1 = handler_to_connection_map w
              ∧ (command_handler_holding_job_lock w1 = command_handler_holding_job_lock w
                 ∨ command_handler_holding_job_lock w1 = None
                 ∨ (command_handler_holding_job_lock w1 = Some h
                    ∧ h ∈ dom (handler_to_connection_map w) ∧ lock = true)))
      as (b & w1 & Hrun & Hmap & Hholder).
    { destruct (set_job_lock_cases h lock w)
        as [Hc|[(? & ? & _ & Hc)|(_ & _ & _ & Hc)]]; rewrite Hc; eexists _, _;
        (split_and!; [done|done|]); [by left|right; right; by simpl|right; by left]. }
    rewrite Hrun. destruct (IH w1) as (bs & w2 & Hrun2 & Hlen & Hmap2 & Hholder2).
    rewrite Hrun2. eexists _, _. split_and!; [done|simpl; by rewrite Hlen|congruence|].
    destruct Hholder2 as [Hsame|[Hnone|(h' & Hh' & Hknown & Hin)]].
    + rewrite Hsame. destruct Hholder as [?|[?|(? & ? & ->)]]; [by left|right; by left|].
      right; right. exists h. split_and!; [done..|]. apply list_elem_of_here.
    + right; by left.
    + right; right. exists h'. split_and!; [done|by rewrite <- Hmap|].
      by apply list_elem_of_further.
Qed.

(** C10.  A call of [set_job_lock] that returns false leaves the worker, and
    so the holder of the lock, as it was; no call hands the lock from one
    handler to another; a sequence of calls answers every call and ends with
    the holder it started with, with no holder, or with a known handler that
    asked for the lock; and after any sequence of calls at most one handler
    holds the lock. *)
Theorem set_job_lock_failure_keeps_holder :
  (∀ h lock w, ∃ b w',
      set_job_lock h lock w = (Ok b, w')
      ∧ (b = false →
         w' = w ∧ command_handler_holding_job_lock w' = command_handler_holding_job_lock w))
  ∧ (∀ h lock w r w' ha hb,
      set_job_lock h lock w = (r, w') →
      command_handler_holding_job_lock w = Some ha →
      command_handler_holding_job_lock w' = Some hb →
      ha = hb)
  ∧ (∀ calls w, ∃ bs w',
      set_job_lock_seq calls w = (Ok bs, w')
      ∧ length bs = length calls
      ∧ (command_handler_holding_job_lock w' = command_handler_holding_job_lock w
         ∨ command_handler_holding_job_lock w' = None
         ∨ ∃ h, command_handler_holding_job_lock w' = Some h
                ∧ h ∈ dom (handler_to_connection_map w) ∧ (h, true) ∈ calls)
      ∧ ∀ ha hb, check_job_lock ha w' = true → check_job_lock hb w' = true → ha = hb).
Proof.
  split_and!.
  - intros h lock w.
    destruct (set_job_lock_cases h lock w) as [Hc|[(_ & _ & _ & Hc)|(_ & _ & _ & Hc)]];
      rewrite Hc; eexists _, _; (split; [done|]); by intros.
  - intros h lock w r w' ha hb Hrun Hbefore Hafter.
    destruct (set_job_lock_cases h lock w) as [Hc|[(_ & _ & Hfree & Hc)|(_ & _ & _ & Hc)]];
      rewrite Hc in Hrun; injection Hrun as <- <-; simpl in *; congruence.
  - intros calls w.
    destruct (set_job_lock_seq_run calls w) as (bs & w' & Hrun & Hlen & _ & Hholder).
    exists bs, w'. split_and!; [done..|].
    intros ha hb Ha Hb. unfold check_job_lock in *.
    apply bool_decide_eq_true_1 in Ha, Hb. congruence.
Qed.

(** ** Sending results *)

Lemma _get_handler_for_job_known (w : GearmanWorker) (job : GearmanJob) (h : Handler) :
  connection_to_handler_map w !! conn job = Some h →
  _get_handler_for_job job w = (Ok h, w).
Proof. intros Hh. unfold _get_handler_for_job. run. by rewrite Hh. Qed.

Lemma send_job_failure_known (w : GearmanWorker) (job : GearmanJob) (h : Handler) :
  connection_to_handler_map w !! conn job = Some h →
  send_job_failure job w = (Ok tt, log (EvSend h (WorkFail job)) w).
Proof.
  intros Hh. unfold send_job_failure. run.
  by rewrite (_get_handler_for_job_known _ _ _ Hh).
Qed.

Lemma send_job_complete_known (w : GearmanWorker) (job : GearmanJob) (d : string) (h : Handler) :
  connection_to_handler_map w !! conn job = Some h →
  send_job_complete job d w = (Ok tt, log (EvSend h (WorkComplete job d)) w).
Proof.
  intros Hh. unfold send_job_complete. run.
  by rewrite (_get_handler_for_job_known _ _ _ Hh).
Qed.

(** C6.  For a job whose connection has the handler [h],
    [send_job_exception] sends through [h] an exception message and then a
    failure message, and nothing else. *)
Theorem send_job_exception_then_failure (w : GearmanWorker) (job : GearmanJob)
    (d : string) (h : Handler)
    (Hh : connection_to_handler_map w !! conn job = Some h) :
  ∃ w', send_job_exception job d w = (Ok tt, w')
        ∧ trace w' = trace w ++ [EvSend h (WorkException job d); EvSend h (WorkFail job)]
        ∧ w' = log (EvSend h (WorkFail job)) (log (EvSend h (WorkException job d)) w).
Proof.
  exists (log (EvSend h (WorkFail job)) (log (EvSend h (WorkException job d)) w)).
  split_and!; [|simpl; by rewrite <- (assoc_L (++))|done].
  unfold send_job_exception. run.
  by rewrite (_get_handler_for_job_known _ _ _ Hh).
Qed.

Lemma send_job_exception_then_failure_witness :
  ∃ w', send_job_exception example.echo_job "trouble" example.w0 = (Ok tt, w')
        ∧ trace w' = [EvSend 10 (WorkException example.echo_job "trouble");
                      EvSend 10 (WorkFail example.echo_job)].
Proof.
  destruct (send_job_exception_then_failure example.w0 example.echo_job "trouble" 10)
    as (w' & Hrun & Htrace & _); [reflexivity|].
  exists w'. split; [exact Hrun|exact Htrace].
Defined.

(** ** Running a job *)

Lemma on_job_execute_lookup_fails (w : GearmanWorker) (job : GearmanJob) (h : Handler) :
  worker_abilities w !! func job = None →
  connection_to_handler_map w !! conn job = Some h →
  on_job_execute job w = (Ok false, log (EvSend h (WorkFail job)) w).
Proof.
  intros Hnone Hh. unfold on_job_execute. run. rewrite Hnone. run.
  unfold on_job_exception. run.
  by rewrite (send_job_failure_known _ _ _ Hh).
Qed.

Lemma on_job_execute_callback_raises (w : GearmanWorker) (job : GearmanJob)
    (cb : Callback) (e : exn) (h : Handler) :
  worker_abilities w !! func job = Some cb →
  connection_to_handler_map w !! conn job = Some h →
  cb job = CbRaise e → isinstance_Exception e = true →
  on_job_execute job w = (Ok false, log (EvSend h (WorkFail job)) w).
Proof.
  intros Hcb Hh Hraise Hexc. unfold on_job_execute. run. rewrite Hcb. run.
  unfold call. rewrite Hraise. run. rewrite Hexc.
  unfold on_job_exception. run.
  by rewrite (send_job_failure_known _ _ _ Hh).
Qed.

Lemma on_job_execute_callback_returns (w : GearmanWorker) (job : GearmanJob)
    (cb : Callback) (v : string) (h : Handler) :
  worker_abilities w !! func job = Some cb →
  connection_to_handler_map w !! conn job = Some h →
  cb job = CbReturn v →
  on_job_execute job w = (Ok true, log (EvSend h (WorkComplete job v)) w).
Proof.
  intros Hcb Hh Hret. unfold on_job_execute. run. rewrite Hcb. run.
  unfold call. rewrite Hret. run.
  unfold on_job_complete. run.
  by rewrite (send_job_complete_known _ _ _ _ Hh).
Qed.

(** What [except Exception] lets through: an exit raised by the callback
    that does not derive from [Exception] leaves [on_job_execute] as it
    is. *)
Lemma on_job_execute_callback_exits (w : GearmanWorker) (job : GearmanJob)
    (cb : Callback) (e : exn) :
  worker_abilities w !! func job = Some cb →
  cb job = CbRaise e → isinstance_Exception e = false →
  on_job_execute job w = (Raise e, w).
Proof.
  intros Hcb Hraise Hexc. unfold on_job_execute. run. rewrite Hcb. run.
  unfold call. rewrite Hraise. run. by rewrite Hexc.
Qed.



(** C1, as the code has it.  For a job whose function name is not registered
    and whose connection has the handler [h], the failed lookup is caught
    inside [on_job_execute] like an exception raised by a registered
    callback: one failure message is sent through [h] and false is
    returned. *)
Theorem on_job_execute_unregistered (w : GearmanWorker) (job : GearmanJob) (h : Handler)
    (Hh : connection_to_handler_map w !! conn job = Some h) :
  (worker_abilities w !! func job = None →
     ∃ w', on_job_execute job w = (Ok false, w')
           ∧ trace w' = trace w ++ [EvSend h (WorkFail job)])
  ∧ (∀ cb e, worker_abilities w !! func job = Some cb →
       cb job = CbRaise e → isinstance_Exception e = true →
     ∃ w', on_job_execute job w = (Ok false, w')
           ∧ trace w' = trace w ++ [EvSend h (WorkFail job)]).
Proof.
  split.
  - intros Hnone. eexists. split; [by eapply on_job_execute_lookup_fails|done].
  - intros cb e Hcb Hraise Hexc. eexists.
    split; [by eapply on_job_execute_callback_raises|done].
Qed.

Lemma on_job_execute_unregistered_witness :
  ∃ w', on_job_execute example.echo_job example.w0 = (Ok false, w')
        ∧ trace w' = [EvSend 10 (WorkFail example.echo_job)].
Proof.
  destruct (on_job_execute_unregistered example.w0 example.echo_job 10) as [Hnone _];
    [reflexivity|].
  destruct Hnone as (w' & Hrun & Htrace); [reflexivity|].
  exists w'. split; [exact Hrun|exact Htrace].
Defined.

(** C1 as stated fails: with one connection mapped to its handler and no
    ability registered, a job for ["echo"] does not make [on_job_execute]
    raise. *)
Lemma on_job_execute_unregistered_counterexample :
  worker_abilities example.w0 !! func example.echo_job = None
  ∧ ¬ ∃ e w', on_job_execute example.echo_job example.w0 = (Raise e, w').
Proof.
  split; [reflexivity|].
  intros (e & w' & Hrun).
  rewrite (on_job_execute_lookup_fails _ _ 10) in Hrun by reflexivity.
  discriminate.
Qed.

(** ** Creating a job *)

Lemma create_job_unknown (w : GearmanWorker) (h : Handler)
    (job_handle function_name unique data : string) :
  handler_to_connection_map w !! h = None →
  create_job h job_handle function_name unique data w
  = (Raise (KeyError (KeyHandler h)), w).
Proof. intros Hh. unfold create_job. run. by rewrite Hh. Qed.

Lemma create_job_known (w : GearmanWorker) (h : Handler) (c : Connection)
    (job_handle function_name unique data : string) :
  handler_to_connection_map w !! h = Some c →
  create_job h job_handle function_name unique data w
  = (Ok (mkGearmanJob c job_handle function_name unique data), w).
Proof. intros Hh. unfold create_job. run. by rewrite Hh. Qed.

(** C9, as the code has it.  For a handler that is not in the
    handler-to-connection map, [create_job] raises the [KeyError] of the
    failed lookup, changes nothing and builds no job; for a known handler it
    builds the job bound to the handler's connection. *)
Theorem create_job_lookup (w : GearmanWorker) (h : Handler)
    (job_handle function_name unique data : string) :
  (handler_to_connection_map w !! h = None →
     create_job h job_handle function_name unique data w
     = (Raise (KeyError (KeyHandler h)), w))
  ∧ (∀ c, handler_to_connection_map w !! h = Some c →
     create_job h job_handle function_name unique data w
     = (Ok (mkGearmanJob c job_handle function_name unique data), w)).
Proof.
  split; [apply create_job_unknown|intros c; apply create_job_known].
Qed.

(** C9 as stated fails: the handler [7] is unknown to the example worker,
    and [create_job] does not fail with one of the invalid-state
    exceptions. *)
Lemma create_job_unknown_handler_counterexample :
  handler_to_connection_map example.w0 !! 7 = None
  ∧ ¬ ∃ e w', create_job 7 "H:1" "echo" "u1" "abc" example.w0 = (Raise e, w')
              ∧ isinstance_InvalidState e = true.
Proof.
  split; [reflexivity|].
  intros (e & w' & Hrun & Hinv).
  rewrite create_job_unknown in Hrun by reflexivity.
  injection Hrun as <- _. discriminate.
Qed.

(** ** Registering abilities *)

Lemma add_trace_nil (w : GearmanWorker) : add_trace [] w = w.
Proof. destruct w. unfold add_trace. simpl. by rewrite (right_id_L [] (++)). Qed.

Lemma add_trace_log (e : Event) (evs : list Event) (w : GearmanWorker) :
  add_trace evs (log e w) = add_trace (e :: evs) w.
Proof. unfold add_trace, log. simpl. by rewrite <- (assoc_L (++)). Qed.

Lemma keys_elem_of {V} (m : gmap nat V) (k : nat) : k ∈ keys m ↔ k ∈ dom m.
Proof.
  unfold keys. rewrite elem_of_dom, list_elem_of_fmap. split.
  - intros ([k' v] & -> & Hkv). apply elem_of_map_to_list in Hkv. by exists v.
  - intros [v Hv]. exists (k, v). split; [done|]. by apply elem_of_map_to_list.
Qed.

Lemma keys_set (m : gmap string Callback) : list_to_set (keys m) = dom m.
Proof.
  apply set_eq. intros k. rewrite elem_of_list_to_set.
  unfold keys. rewrite elem_of_dom, list_elem_of_fmap. split.
  - intros ([k' v] & -> & Hkv). apply elem_of_map_to_list in Hkv. by exists v.
  - intros [v Hv]. exists (k, v). split; [done|]. by apply elem_of_map_to_list.
Qed.

Lemma for_each_set_abilities (hs : list Handler) (w : GearmanWorker) :
  for_each hs (λ command_handler,
    w' ← get;
    handler.set_abilities command_handler (keys (worker_abilities w'))) w
  = (Ok tt, add_trace (map (λ h, EvSetAbilities h (keys (worker_abilities w))) hs) w).
Proof.
  revert w. induction hs as [|h hs IH]; intros w; simpl.
  - by rewrite add_trace_nil.
  - run. rewrite IH. simpl. by rewrite add_trace_log.
Qed.

Lemma broadcast_abilities_run (w : GearmanWorker) :
  broadcast_abilities w
  = (Ok tt, add_trace (map (λ h, EvSetAbilities h (keys (worker_abilities w)))
                           (keys (handler_to_connection_map w))) w).
Proof. unfold broadcast_abilities. run. apply for_each_set_abilities. Qed.

(** C8.  [register_function] returns the name and [unregister_function]
    returns the name, whether it was registered or not; after either, every
    handler of the handler-to-connection map has received exactly one
    [set_abilities] call, and the names it carries are, as a set, the keys of
    the ability table as the call leaves it. *)
Theorem register_unregister_broadcast (w : GearmanWorker) (function_name : string)
    (callback_function : Callback) :
  (∃ w' names,
      register_function function_name callback_function w = (Ok function_name, w')
      ∧ worker_abilities w' = <[function_name := callback_function]> (worker_abilities w)
      ∧ handler_to_connection_map w' = handler_to_connection_map w
      ∧ trace w' = trace w ++ map (λ h, EvSetAbilities h names)
                                  (keys (handler_to_connection_map w'))
      ∧ (list_to_set names : gset string) = dom (worker_abilities w'))
  ∧ (∃ w' names,
      unregister_function function_name w = (Ok function_name, w')
      ∧ worker_abilities w' = delete function_name (worker_abilities w)
      ∧ (worker_abilities w !! function_name = None →
         worker_abilities w' = worker_abilities w)
      ∧ handler_to_connection_map w' = handler_to_connection_map w
      ∧ trace w' = trace w ++ map (λ h, EvSetAbilities h names)
                                  (keys (handler_to_connection_map w'))
      ∧ (list_to_set names : gset string) = dom (worker_abilities w'))
  ∧ NoDup (keys (handler_to_connection_map w))
  ∧ (∀ h, h ∈ keys (handler_to_connection_map w) ↔ h ∈ dom (handler_to_connection_map w)).
Proof.
  split_and!.
  - eexists _, _. split_and!.
    + unfold register_function. run. rewrite broadcast_abilities_run. reflexivity.
    + done.
    + done.
    + done.
    + apply keys_set.
  - eexists _, _. split_and!.
    + unfold unregister_function. run. rewrite broadcast_abilities_run. reflexivity.
    + done.
    + intros Hnone. simpl. by apply delete_id.
    + done.
    + done.
    + apply keys_set.
  - apply NoDup_fst_map_to_list.
  - apply keys_elem_of.
Qed.

(** ** The alive connections *)

Lemma reconnect_frame_refl (w : GearmanWorker) : reconnect_frame w w.
Proof.
  unfold reconnect_frame. split_and!; try done.
  exists []. by rewrite (right_id_L [] (++)).
Qed.

Lemma reconnect_frame_trans (w1 w2 w3 : GearmanWorker) :
  reconnect_frame w1 w2 → reconnect_frame w2 w3 → reconnect_frame w1 w3.
Proof.
  intros (? & ? & ? & ? & ? & ? & ? & ? & evs1 & Ht1 & Hevs1)
         (? & ? & ? & ? & ? & ? & ? & ? & evs2 & Ht2 & Hevs2).
  unfold reconnect_frame. split_and!; try congruence.
  exists (evs1 ++ evs2). split.
  - by rewrite Ht2, Ht1, (assoc_L (++)).
  - by apply Forall_app.
Qed.

Lemma reconnect_frame_log (e : Event) (w : GearmanWorker) :
  is_connect_event e = true → reconnect_frame w (log e w).
Proof.
  intros He. unfold reconnect_frame. split_and!; try done.
  exists [e]. split; [done|]. by apply Forall_singleton.
Qed.

Lemma reconnect_frame_set_connected (f : gset Connection → gset Connection) (w : GearmanWorker) :
  reconnect_frame w (set_connected f w).
Proof.
  unfold reconnect_frame. split_and!; try done.
  exists []. simpl. by rewrite (right_id_L [] (++)).
Qed.

Lemma reconnect_frame_set_rng (g : nat) (w : GearmanWorker) :
  reconnect_frame w (set_rng g w).
Proof.
  unfold reconnect_frame. split_and!; try done.
  exists []. simpl. by rewrite (right_id_L [] (++)).
Qed.

(** One reconnect: the socket comes up exactly when it was down and the
    server accepts; a refused connection is passed over; only a connection
    without a handler makes the pass raise. *)
Lemma reconnect_run (c : Connection) (w : GearmanWorker) :
  ∃ r w', reconnect c w = (r, w')
    ∧ reconnect_frame w w'
    ∧ connected w' = connected w ∪ ({[c]} ∩ reachable w)
    ∧ (is_Some (connection_to_handler_map w !! c) → r = Ok tt)
    ∧ (∀ e, r = Raise e → ∃ msg, e = AttributeError msg).
Proof.
  unfold reconnect, connection.is_connected, connection.connect. run.
  case_bool_decide as Hup; simpl.
  - eexists _, _. split_and!; [done|apply reconnect_frame_refl|set_solver|done|done].
  - case_bool_decide as Hreach; simpl.
    + destruct (connection_to_handler_map w !! c) as [h|] eqn:Hh; run;
        (eexists _, _; split_and!; [done| |simpl; set_solver| |]).
      * eapply reconnect_frame_trans; [apply reconnect_frame_set_connected|].
        eapply reconnect_frame_trans; by apply reconnect_frame_log.
      * done.
      * done.
      * eapply reconnect_frame_trans; [apply reconnect_frame_set_connected|].
        by apply reconnect_frame_log.
      * by intros [? ?].
      * intros e [= <-]. by eexists.
    + eexists _, _.
      split_and!; [done|by apply reconnect_frame_log|simpl; set_solver|done|done].
Qed.

Lemma for_each_reconnect_run (l : list Connection) (w : GearmanWorker) :
  ∃ r w', for_each l reconnect w = (r, w')
    ∧ reconnect_frame w w'
    ∧ ((∀ c, c ∈ l → is_Some (connection_to_handler_map w !! c)) →
       r = Ok tt ∧ connected w' = connected w ∪ (list_to_set l ∩ reachable w))
    ∧ (∀ e, r = Raise e → ∃ msg, e = AttributeError msg).
Proof.
  revert w. induction l as [|c l IH]; intros w; simpl.
  - eexists _, _. split_and!; [done|apply reconnect_frame_refl| |done].
    intros _. split; [done|set_solver].
  - destruct (reconnect_run c w) as (r1 & w1 & Hrun1 & Hframe1 & Hup1 & Hok1 & Hexn1).
    run. rewrite Hrun1.
    destruct (IH w1) as (r2 & w2 & Hrun2 & Hframe2 & Hok2 & Hexn2).
    destruct r1 as [[]|e].
    + rewrite Hrun2. eexists _, _.
      split_and!; [done|by eapply reconnect_frame_trans| |done].
      intros Hwf. destruct Hok2 as [-> Hup2].
      * intros c' Hc'. destruct Hframe1 as (_ & -> & _). apply Hwf. set_solver.
      * split; [done|]. rewrite Hup2, Hup1.
        destruct Hframe1 as (_ & _ & _ & _ & _ & _ & -> & _). set_solver.
    + eexists _, _. split_and!; [done..| |done].
      intros Hwf. discriminate Hok1. apply Hwf. set_solver.
Qed.

Section AliveConnections.

Variable shuffle : nat → list Connection → list Connection * nat.

(** A reconnect pass over the shuffled list: whatever its outcome it changes
    only sockets, generator and trace; when every connection of the shuffled
    list has a handler it returns the connected ones, in shuffled order. *)
Lemma get_alive_connections_run (w : GearmanWorker) :
  ∃ r w', get_alive_connections shuffle w = (r, w')
    ∧ reconnect_frame w w'
    ∧ (∀ alive, r = Ok alive →
         alive = filter (λ c, connection.is_connected c w' = true)
                        (shuffle (rng w) (connection_list w)).1)
    ∧ ((∀ c, c ∈ (shuffle (rng w) (connection_list w)).1 →
             is_Some (connection_to_handler_map w !! c)) →
       (∃ alive, r = Ok alive)
       ∧ connected w' = connected w
           ∪ (list_to_set (shuffle (rng w) (connection_list w)).1 ∩ reachable w))
    ∧ (∀ e, r = Raise e → ∃ msg, e = AttributeError msg).
Proof.
  unfold get_alive_connections, random_shuffle. run.
  destruct (shuffle (rng w) (connection_list w)) as [l g] eqn:Hsh. simpl.
  destruct (for_each_reconnect_run l (set_rng g w)) as (r & w' & Hrun & Hframe & Hok & Hexn).
  rewrite Hrun. destruct r as [[]|e].
  - eexists _, _. split_and!; [done| | | |done].
    + eapply reconnect_frame_trans; [apply reconnect_frame_set_rng|done].
    + by intros alive [= <-].
    + intros Hwf. destruct (Hok Hwf) as [_ Hup]. split; [by eexists|done].
  - eexists _, _. split_and!; [done| | | |].
    + eapply reconnect_frame_trans; [apply reconnect_frame_set_rng|done].
    + by intros alive [=].
    + intros Hwf. by destruct (Hok Hwf) as [[=] _].
    + intros e' [= <-]. by apply Hexn.
Qed.

Hypothesis shuffle_permutes : ∀ g l, (shuffle g l).1 ≡ₚ l.

(** C7.  When every connection of the list has its handler,
    [get_alive_connections] returns whatever the number of connections that
    refuse: it yields, in shuffled order, exactly the connections of the list
    that are connected when it ends; a connection that was down and refuses
    is left out; and when every connection is down and refuses, the result is
    empty. *)
Theorem get_alive_connections_never_raises (w : GearmanWorker)
    (Hwf : ∀ c, c ∈ connection_list w → is_Some (connection_to_handler_map w !! c)) :
  ∃ alive w',
    get_alive_connections shuffle w = (Ok alive, w')
    ∧ alive = filter (λ c, connection.is_connected c w' = true)
                     (shuffle (rng w) (connection_list w)).1
    ∧ (∀ c, c ∈ alive ↔ c ∈ connection_list w ∧ connection.is_connected c w' = true)
    ∧ connected w' = connected w ∪ (list_to_set (connection_list w) ∩ reachable w)
    ∧ (∀ c, c ∈ connection_list w → c ∉ connected w → c ∉ reachable w → c ∉ alive)
    ∧ ((∀ c, c ∈ connection_list w → (c ∉ connected w) ∧ (c ∉ reachable w)) → alive = []).
Proof.
  destruct (get_alive_connections_run w) as (r & w' & Hrun & Hframe & Hfilter & Hok & _).
  destruct Hok as [[alive ->] Hup].
  { intros c Hc. apply Hwf. by rewrite <- (shuffle_permutes (rng w)). }
  specialize (Hfilter alive eq_refl).
  assert (Hmem : ∀ c, c ∈ alive ↔ c ∈ connection_list w ∧ connection.is_connected c w' = true).
  { intros c. rewrite Hfilter, list_elem_of_filter, (shuffle_permutes (rng w)). tauto. }
  assert (Hup' : connected w' = connected w ∪ (list_to_set (connection_list w) ∩ reachable w)).
  { rewrite Hup. f_equal. f_equal. apply set_eq. intros c.
    by rewrite !elem_of_list_to_set, (shuffle_permutes (rng w)). }
  assert (Hout : ∀ c, c ∈ connection_list w → c ∉ connected w → c ∉ reachable w → c ∉ alive).
  { intros c Hc Hdown Hrefuse [_ Hin]%Hmem.
    unfold connection.is_connected in Hin. apply bool_decide_eq_true_1 in Hin.
    rewrite Hup' in Hin. set_solver. }
  exists alive, w'. split_and!; try done.
  intros Hall. destruct alive as [|c alive']; [done|]. exfalso.
  assert (Hc : c ∈ c :: alive') by apply list_elem_of_here.
  pose proof Hc as [Hlist _]%Hmem.
  destruct (Hall c Hlist) as [Hdown Hrefuse]. by apply (Hout c Hlist Hdown Hrefuse).
Qed.

End AliveConnections.

Lemma get_alive_connections_never_raises_witness :
  ∃ w', get_alive_connections example.shuffle_reverse example.w0 = (Ok [2], w')
        ∧ connected w' = {[2]}.
Proof.
  destruct (get_alive_connections_never_raises example.shuffle_reverse) with (w := example.w0)
    as (alive & w' & Hrun & Hfilter & _ & Hup & _).
  - intros g l. apply reverse_Permutation.
  - intros c Hc. vm_compute in Hc.
    apply elem_of_cons in Hc as [->|Hc]; [by eexists|].
    apply elem_of_cons in Hc as [->|Hc]; [by eexists|].
    by apply not_elem_of_nil in Hc.
  - exists w'. assert (Hup' : connected w' = {[2]}).
    { rewrite Hup. vm_compute. reflexivity. }
    split; [|done]. rewrite Hrun. f_equal. f_equal. rewrite Hfilter.
    unfold connection.is_connected. rewrite Hup'. reflexivity.
Defined.

(** ** The loop of [work] *)

Lemma close_run (c : Connection) (w : GearmanWorker) :
  connection.close c w
  = if bool_decide (c ∈ close_fails w)
    then (Raise (ConnectionError c), log (EvClose c false) w)
    else (Ok tt, log (EvClose c true) (set_connected (λ s, s ∖ {[c]}) w)).
Proof. reflexivity. Qed.

(** Closing connections one after the other: the first close that fails ends
    the pass with the connection's error; when none fails, every connection
    of the list is closed. *)
Lemma for_each_close_run (l : list Connection) (w : GearmanWorker) :
  ∃ r w', for_each l connection.close w = (r, w')
    ∧ (∀ e, r = Raise e → ∃ c, c ∈ l ∧ c ∈ close_fails w ∧ e = ConnectionError c)
    ∧ ((∀ c, c ∈ l → c ∉ close_fails w) →
       r = Ok tt
       ∧ connected w' = connected w ∖ list_to_set l
       ∧ trace w' = trace w ++ map (λ c, EvClose c true) l).
Proof.
  revert w. induction l as [|c l IH]; intros w; simpl.
  - eexists _, _. split_and!; [done|done|].
    intros _. split_and!; [done|set_solver|by rewrite (right_id_L [] (++))].
  - run. rewrite close_run. case_bool_decide as Hfail; simpl.
    + eexists _, _. split_and!; [done| |].
      * intros e [= <-]. exists c. split_and!; [apply list_elem_of_here|done|done].
      * intros Hnone. exfalso. by apply (Hnone c (list_elem_of_here _ _)).
    + destruct (IH (log (EvClose c true) (set_connected (λ s, s ∖ {[c]}) w)))
        as (r & w' & Hrun & Hexn & Hok).
      rewrite Hrun. eexists _, _. split_and!; [done| |].
      * intros e He. destruct (Hexn e He) as (c' & Hc' & Hf & ->).
        exists c'. split_and!; [by apply list_elem_of_further|done|done].
      * intros Hnone. destruct Hok as (-> & Hup & Htr).
        { intros c' Hc'. apply Hnone. by apply list_elem_of_further. }
        split_and!; [done| |].
        -- rewrite Hup. simpl. set_solver.
        -- rewrite Htr. simpl. by rewrite <- (assoc_L (++)).
Qed.

Section WorkLoop.

Variable shuffle : nat → list Connection → list Connection * nat.
Variable self_before_poll : GearmanWorker → bool * GearmanWorker.
Variable self_after_poll : bool → GearmanWorker → bool * GearmanWorker.
Variable self_poll_connections_once :
  list Connection → Q → GearmanWorker → bool * GearmanWorker.
Variable poll_timeout : Q.

Local Abbreviation iteration :=
  (work_iteration shuffle self_before_poll self_after_poll self_poll_connections_once
     poll_timeout).
Local Abbreviation loop fuel :=
  (work_loop shuffle self_before_poll self_after_poll self_poll_connections_once
     fuel poll_timeout).
Local Abbreviation run_work fuel :=
  (work shuffle self_before_poll self_after_poll self_poll_connections_once
     fuel poll_timeout).
Local Abbreviation loop_top :=
  (at_loop_top shuffle self_before_poll self_after_poll self_poll_connections_once
     poll_timeout).

(** A pass through the loop body raises what [get_alive_connections] raises,
    raises [ServerUnavailable] in the very state [get_alive_connections]
    leaves when no connection is alive, and otherwise ends normally with the
    alive connections it computed. *)
Lemma work_iteration_cases (w : GearmanWorker) :
  (∃ e w1, get_alive_connections shuffle w = (Raise e, w1)
           ∧ iteration w = (Raise e, w1))
  ∨ (∃ w1, get_alive_connections shuffle w = (Ok [], w1)
           ∧ iteration w = (Raise (ServerUnavailable (connection_list w1)), w1))
  ∨ (∃ alive w1 ctl w2, get_alive_connections shuffle w = (Ok alive, w1)
           ∧ alive ≠ []
           ∧ iteration w = (Ok (alive, ctl), w2)).
Proof.
  unfold work_iteration. run.
  destruct (get_alive_connections shuffle w) as [[alive|e] w1] eqn:Halive.
  - case_bool_decide as Hempty.
    + subst alive. right; left. by eexists.
    + right; right. unfold returns.
      destruct (self_before_poll (log EvBeforePoll w1)) as [start_working w2].
      destruct start_working; simpl.
      * destruct (self_poll_connections_once alive poll_timeout
                    (log (EvPoll alive poll_timeout) w2)) as [activity w3].
        destruct (self_after_poll activity (log (EvAfterPoll activity) w3))
          as [continue_working w4].
        by eexists _, _, _, _.
      * by eexists _, _, _, _.
  - left. by eexists _, _.
Qed.

(** The loop ends in the pass that raises, breaks, or leaves
    [continue_working] false, and only there. *)
Lemma loop_sound (fuel : nat) (a : list Connection) (w : GearmanWorker)
    (r : result (list Connection)) (w' : GearmanWorker) :
  loop fuel true a w = Some (r, w') →
  ∃ w_top, loop_top w w_top
    ∧ ((∃ e, iteration w_top = (Raise e, w') ∧ r = Raise e)
       ∨ (∃ alive ctl, iteration w_top = (Ok (alive, ctl), w')
            ∧ (ctl = Break ∨ ctl = Next false) ∧ r = Ok alive)).
Proof.
  revert a w. induction fuel as [|fuel IH]; intros a w Hloop; [done|].
  simpl in Hloop.
  destruct (iteration w) as [[[alive ctl]|e] w1] eqn:Hiter.
  - destruct ctl as [|[]].
    + injection Hloop as <- <-. exists w. split; [constructor|].
      right. exists alive, Break. auto.
    + destruct (IH _ _ Hloop) as (w_top & Htop & Hend).
      exists w_top. split; [|done]. by econstructor.
    + assert (Hstop : r = Ok alive ∧ w' = w1) by (destruct fuel; simpl in Hloop; by injection Hloop).
      destruct Hstop as [-> ->]. exists w. split; [constructor|].
      right. exists alive, (Next false). auto.
  - injection Hloop as <- <-. exists w. split; [constructor|]. left. by exists e.
Qed.

Lemma loop_complete (w w_top : GearmanWorker) (r : result (list Connection))
    (w' : GearmanWorker) :
  loop_top w w_top →
  (∃ e, iteration w_top = (Raise e, w') ∧ r = Raise e)
  ∨ (∃ alive ctl, iteration w_top = (Ok (alive, ctl), w')
       ∧ (ctl = Break ∨ ctl = Next false) ∧ r = Ok alive) →
  ∃ fuel, ∀ a, loop fuel true a w = Some (r, w').
Proof.
  intros Htop Hend. induction Htop as [w|w w1 w2 alive1 Hiter Htop IH].
  - exists 1. intros a. simpl.
    destruct Hend as [(e & -> & ->)|(alive & ctl & -> & [->| ->] & ->)]; done.
  - destruct (IH Hend) as [fuel Hfuel]. exists (S fuel). intros a.
    simpl. rewrite Hiter. apply Hfuel.
Qed.

(** C2.  In every state in which [work] is at the top of its loop: when
    [get_alive_connections] yields no connection there, the pass raises
    [ServerUnavailable] carrying the connection list, in the state
    [get_alive_connections] left (whose trace has grown by calls of the
    reconnect pass only, so neither [before_poll] nor the poll was called),
    and [work] ends with that exception; and whenever [work] ends with
    [ServerUnavailable], [get_alive_connections] yielded no connection at the
    top of the last pass and the exception carries the connection list. *)
Theorem work_raises_server_unavailable (w : GearmanWorker) :
  (∀ w_top w1,
      loop_top w w_top →
      get_alive_connections shuffle w_top = (Ok [], w1) →
      iteration w_top = (Raise (ServerUnavailable (connection_list w_top)), w1)
      ∧ connection_list w1 = connection_list w_top
      ∧ (∃ evs, trace w1 = trace w_top ++ evs
                ∧ Forall (λ e, is_connect_event e = true) evs)
      ∧ ∃ fuel, run_work fuel w
                = Some (Raise (ServerUnavailable (connection_list w_top)), w1))
  ∧ (∀ fuel l w',
      run_work fuel w = Some (Raise (ServerUnavailable l), w') →
      ∃ w_top, loop_top w w_top
        ∧ get_alive_connections shuffle w_top = (Ok [], w')
        ∧ l = connection_list w_top).
Proof.
  split.
  - intros w_top w1 Htop Halive.
    destruct (get_alive_connections_run shuffle w_top)
      as (r & w1' & Hrun & Hframe & _).
    rewrite Halive in Hrun. injection Hrun as <- <-.
    destruct Hframe as (Hlist & _ & _ & _ & _ & _ & _ & _ & Hevs).
    assert (Hiter : iteration w_top
                    = (Raise (ServerUnavailable (connection_list w_top)), w1)).
    { destruct (work_iteration_cases w_top)
        as [(e & w2 & Ha & _)|[(w2 & Ha & Hi)|(alive & w2 & ctl & w3 & Ha & Hne & _)]];
        rewrite Halive in Ha; simplify_eq.
      by rewrite Hi, Hlist. }
    split_and!; try done.
    destruct (loop_complete w w_top (Raise (ServerUnavailable (connection_list w_top))) w1 Htop)
      as [fuel Hfuel]; [left; by eexists|].
    exists fuel. unfold work. by rewrite Hfuel.
  - intros fuel l w' Hwork. unfold work in Hwork.
    destruct (loop fuel true [] w) as [[[alive|e] w1]|] eqn:Hloop; [| |done].
    + destruct (for_each_close_run alive w1) as (r & w2 & Hclose & Hexn & _).
      rewrite Hclose in Hwork. injection Hwork as -> <-.
      by destruct (Hexn _ eq_refl) as (c & _ & _ & [=]).
    + injection Hwork as -> <-.
      destruct (loop_sound _ _ _ _ _ Hloop)
        as (w_top & Htop & [(e & Hiter & [= <-])|(? & ? & _ & _ & [=])]).
      exists w_top. split; [done|].
      destruct (get_alive_connections_run shuffle w_top)
        as (r & w1' & Hrun & Hframe & _ & _ & Hexn).
      destruct Hframe as (Hlist & _).
      destruct (work_iteration_cases w_top)
        as [(e & w2 & Ha & Hi)|[(w2 & Ha & Hi)|(alive & w2 & ctl & w3 & Ha & Hne & Hi)]];
        rewrite Hi in Hiter; rewrite Ha in Hrun; simplify_eq.
      * by destruct (Hexn _ eq_refl) as [msg [=]].
      * split; [done|]. by rewrite Hlist.
Qed.





End WorkLoop.



(** ** The loop on the example workers *)

(** With no server accepting, the first pass raises [ServerUnavailable] with
    the whole connection list, after two refused connections and nothing
    else. *)
Example work_all_down :
  ∃ w', work example.shuffle_reverse before_poll after_poll example.idle_poll
          1 POLL_TIMEOUT_IN_SECONDS example.w_down
        = Some (Raise (ServerUnavailable [1; 2]), w')
        ∧ trace w' = [EvConnect 2 false; EvConnect 1 false].
Proof. eexists. split; vm_compute; reflexivity. Qed.

(** With [after_poll] stopping the loop, one pass connects, polls and
    closes. *)
Example work_one_pass :
  ∃ w', work example.shuffle_reverse before_poll example.stop_after_poll example.idle_poll
          1 POLL_TIMEOUT_IN_SECONDS example.w0
        = Some (Ok tt, w')
        ∧ trace w' = [EvConnect 2 true; EvOnConnect 20; EvConnect 1 false;
                      EvBeforePoll; EvPoll [2] POLL_TIMEOUT_IN_SECONDS;
                      EvAfterPoll false; EvClose 2 true]
        ∧ connected w' = ∅.
Proof. eexists. split_and!; vm_compute; reflexivity. Qed.

(** With the hooks of [GearmanWorker] itself and a server that stays up, the
    loop does not end within any bound tried. *)
Example work_keeps_running :
  work example.shuffle_reverse before_poll after_poll example.idle_poll
    5 POLL_TIMEOUT_IN_SECONDS example.w0 = None.
Proof. vm_compute. reflexivity. Qed.

(** * Further properties of the worker *)

(** ** The client id *)

Lemma for_each_set_client_id (hs : list Handler) (client_id : string) (w : GearmanWorker) :
  for_each hs (λ command_handler, handler.set_client_id command_handler client_id) w
  = (Ok tt, add_trace (map (λ h, EvSetClientId h client_id) hs) w).
Proof.
  revert w. induction hs as [|h hs IH]; intros w; simpl.
  - by rewrite add_trace_nil.
  - run. rewrite IH. by rewrite add_trace_log.
Qed.

(** X1.  [set_client_id] stores the id, returns it, and calls
    [set_client_id] once on every handler of the handler-to-connection map
    and on nothing else; abilities, job lock and sockets stay as they
    were. *)
Theorem set_client_id_broadcast (w : GearmanWorker) (client_id : string) :
  ∃ w', set_client_id client_id w = (Ok client_id, w')
    ∧ worker_client_id w' = Some client_id
    ∧ trace w' = trace w ++ map (λ h, EvSetClientId h client_id)
                                (keys (handler_to_connection_map w))
    ∧ NoDup (keys (handler_to_connection_map w))
    ∧ (∀ h, h ∈ keys (handler_to_connection_map w) ↔ h ∈ dom (handler_to_connection_map w))
    ∧ worker_abilities w' = worker_abilities w
    ∧ command_handler_holding_job_lock w' = command_handler_holding_job_lock w
    ∧ connected w' = connected w.
Proof.
  eexists. split_and!.
  - unfold set_client_id.
    cbv beta delta [mbind mret M_bind M_ret get modify] iota.
    rewrite for_each_set_client_id. reflexivity.
  - done.
  - done.
  - apply NoDup_fst_map_to_list.
  - apply keys_elem_of.
  - done.
  - done.
  - done.
Qed.

(** ** Sending for a job *)

Lemma _get_handler_for_job_unknown (w : GearmanWorker) (job : GearmanJob) :
  connection_to_handler_map w !! conn job = None →
  _get_handler_for_job job w = (Raise (KeyError (KeyConnection (conn job))), w).
Proof. intros Hc. unfold _get_handler_for_job. run. by rewrite Hc. Qed.

(** X2.  For a job whose connection is not in the connection-to-handler
    map, every one of the six [send_job_*] methods raises the [KeyError] of
    the failed lookup and makes no call at all; [send_job_exception] sends
    neither of its two messages. *)
Theorem send_job_unknown_connection (w : GearmanWorker) (job : GearmanJob)
    (Hc : connection_to_handler_map w !! conn job = None) :
  (∀ numerator denominator,
     send_job_status job numerator denominator w
     = (Raise (KeyError (KeyConnection (conn job))), w))
  ∧ (∀ d, send_job_complete job d w = (Raise (KeyError (KeyConnection (conn job))), w))
  ∧ send_job_failure job w = (Raise (KeyError (KeyConnection (conn job))), w)
  ∧ (∀ d, send_job_exception job d w = (Raise (KeyError (KeyConnection (conn job))), w))
  ∧ (∀ d, send_job_data job d w = (Raise (KeyError (KeyConnection (conn job))), w))
  ∧ (∀ d, send_job_warning job d w = (Raise (KeyError (KeyConnection (conn job))), w)).
Proof.
  split_and!; intros;
    unfold send_job_status, send_job_data, send_job_warning, send_job_complete,
           send_job_failure, send_job_exception;
    run; by rewrite (_get_handler_for_job_unknown _ _ Hc).
Qed.

Lemma send_job_unknown_connection_witness :
  send_job_exception scenario.orphan_job "trouble" example.w0
  = (Raise (KeyError (KeyConnection 9)), example.w0).
Proof.
  destruct (send_job_unknown_connection example.w0 scenario.orphan_job)
    as (_ & _ & _ & Hexception & _); [reflexivity|].
  apply Hexception.
Defined.

(** ** Running a job: the other outcomes *)

Lemma send_job_failure_unknown (w : GearmanWorker) (job : GearmanJob) :
  connection_to_handler_map w !! conn job = None →
  send_job_failure job w = (Raise (KeyError (KeyConnection (conn job))), w).
Proof.
  intros Hc. unfold send_job_failure. run.
  by rewrite (_get_handler_for_job_unknown _ _ Hc).
Qed.

Lemma send_job_complete_unknown (w : GearmanWorker) (job : GearmanJob) (d : string) :
  connection_to_handler_map w !! conn job = None →
  send_job_complete job d w = (Raise (KeyError (KeyConnection (conn job))), w).
Proof.
  intros Hc. unfold send_job_complete. run.
  by rewrite (_get_handler_for_job_unknown _ _ Hc).
Qed.

(** What [on_job_execute] does, by the outcome of lookup and callback. *)
Lemma on_job_execute_outcomes (w : GearmanWorker) (job : GearmanJob) :
  (∃ v, on_job_execute job w = on_job_complete job v w
        ∧ ∃ cb, worker_abilities w !! func job = Some cb ∧ cb job = CbReturn v)
  ∨ (∃ e, on_job_execute job w = on_job_exception job e w
          ∧ isinstance_Exception e = true)
  ∨ (∃ e cb, on_job_execute job w = (Raise e, w)
             ∧ worker_abilities w !! func job = Some cb ∧ cb job = CbRaise e
             ∧ isinstance_Exception e = false).
Proof.
  unfold on_job_execute. run.
  destruct (worker_abilities w !! func job) as [cb|] eqn:Hcb; run.
  - unfold call. destruct (cb job) as [v|e] eqn:Hout; run.
    + left. exists v. split; [done|]. by exists cb.
    + destruct (isinstance_Exception e) eqn:Hexc.
      * right; left. by exists e.
      * right; right. by exists e, cb.
  - right; left. by eexists.
Qed.

(** X3.  For a job whose connection is not in the connection-to-handler
    map, [on_job_execute] never returns a boolean: it raises, and no message
    is sent.  What it raises is the [KeyError] of the connection lookup,
    whether the callback returned, raised an exception or was not registered
    (or the callback's own exit when that does not derive from
    [Exception]). *)
Theorem on_job_execute_unknown_connection (w : GearmanWorker) (job : GearmanJob)
    (Hc : connection_to_handler_map w !! conn job = None) :
  ∃ e, on_job_execute job w = (Raise e, w)
    ∧ (e = KeyError (KeyConnection (conn job))
       ∨ ∃ cb, worker_abilities w !! func job = Some cb ∧ cb job = CbRaise e
               ∧ isinstance_Exception e = false).
Proof.
  destruct (on_job_execute_outcomes w job)
    as [(v & -> & _)|[(e & -> & _)|(e & cb & -> & Hcb & Hout & Hexc)]].
  - exists (KeyError (KeyConnection (conn job))). split; [|by left].
    unfold on_job_complete. run. by rewrite (send_job_complete_unknown _ _ _ Hc).
  - exists (KeyError (KeyConnection (conn job))). split; [|by left].
    unfold on_job_exception. run. by rewrite (send_job_failure_unknown _ _ Hc).
  - exists e. split; [done|]. right. by exists cb.
Qed.

Lemma on_job_execute_unknown_connection_witness :
  on_job_execute scenario.orphan_job example.w_reverse
  = (Raise (KeyError (KeyConnection 9)), example.w_reverse).
Proof.
  destruct (on_job_execute_unknown_connection example.w_reverse scenario.orphan_job)
    as (e & Hrun & [->|(cb & Hcb & Hout & _)]); [reflexivity|exact Hrun|].
  vm_compute in Hcb. injection Hcb as <-. discriminate Hout.
Defined.

(** X4.  [except Exception] does not catch what derives from
    [BaseException] only: when the registered callback ends with
    [KeyboardInterrupt] or [SystemExit], [on_job_execute] ends with it too,
    and neither a failure nor a completion is sent. *)
Theorem on_job_execute_lets_exits_through (w : GearmanWorker) (job : GearmanJob)
    (cb : Callback)
    (Hcb : worker_abilities w !! func job = Some cb) :
  (cb job = CbRaise KeyboardInterrupt →
     on_job_execute job w = (Raise KeyboardInterrupt, w))
  ∧ (∀ code, cb job = CbRaise (SystemExit code) →
     on_job_execute job w = (Raise (SystemExit code), w)).
Proof.
  split; [intros Hout|intros code Hout];
    by eapply on_job_execute_callback_exits.
Qed.

Lemma on_job_execute_lets_exits_through_witness :
  on_job_execute example.reverse_job scenario.w_interrupted
  = (Raise KeyboardInterrupt, scenario.w_interrupted).
Proof.
  destruct (on_job_execute_lets_exits_through scenario.w_interrupted example.reverse_job
              scenario.interrupted_callback) as [Hint _]; [reflexivity|].
  apply Hint. reflexivity.
Defined.

(** X5.  Whatever the job, the table and the callback, [on_job_execute]
    either raises and sends nothing, or returns false after exactly one
    failure message, or returns true after exactly one completion message;
    the message goes through the handler of the job's connection, and nothing
    but the trace changes. *)
Theorem on_job_execute_at_most_one_message (w : GearmanWorker) (job : GearmanJob) :
  (∃ e, on_job_execute job w = (Raise e, w))
  ∨ (∃ h, connection_to_handler_map w !! conn job = Some h
          ∧ (on_job_execute job w = (Ok false, log (EvSend h (WorkFail job)) w)
             ∨ ∃ v, on_job_execute job w
                    = (Ok true, log (EvSend h (WorkComplete job v)) w))).
Proof.
  destruct (connection_to_handler_map w !! conn job) as [h|] eqn:Hh.
  - destruct (on_job_execute_outcomes w job)
      as [(v & -> & _)|[(e & -> & _)|(e & cb & -> & _)]].
    + right. exists h. split; [done|]. right. exists v.
      unfold on_job_complete. run. by rewrite (send_job_complete_known _ _ _ _ Hh).
    + right. exists h. split; [done|]. left.
      unfold on_job_exception. run. by rewrite (send_job_failure_known _ _ _ Hh).
    + left. by exists e.
  - left.
    destruct (on_job_execute_outcomes w job)
      as [(v & -> & _)|[(e & -> & _)|(e & cb & -> & _)]].
    + eexists. unfold on_job_complete. run.
      by rewrite (send_job_complete_unknown _ _ _ Hh).
    + eexists. unfold on_job_exception. run.
      by rewrite (send_job_failure_unknown _ _ Hh).
    + by exists e.
Qed.

(** ** Jobs and their handlers *)

(** X6.  When the two maps agree on a handler [h] and its connection,
    the job [create_job] builds for [h] carries the handle, function name,
    unique id and payload given, and what is sent for that job goes through
    [h] again. *)
Theorem create_job_reports_to_its_handler (w : GearmanWorker) (h : Handler)
    (c : Connection) (job_handle function_name unique_id payload : string)
    (Hhc : handler_to_connection_map w !! h = Some c)
    (Hch : connection_to_handler_map w !! c = Some h) :
  ∃ job, create_job h job_handle function_name unique_id payload w = (Ok job, w)
    ∧ handle job = job_handle ∧ func job = function_name
    ∧ unique job = unique_id ∧ data job = payload
    ∧ _get_handler_for_job job w = (Ok h, w)
    ∧ (∀ d, send_job_complete job d w = (Ok tt, log (EvSend h (WorkComplete job d)) w)).
Proof.
  exists (mkGearmanJob c job_handle function_name unique_id payload).
  split_and!; try done.
  - by apply create_job_known.
  - by apply _get_handler_for_job_known.
  - intros d. by apply send_job_complete_known.
Qed.

Lemma create_job_reports_to_its_handler_witness :
  ∃ job, create_job 20 "H:7" "reverse" "u7" "abc" example.w0 = (Ok job, example.w0)
    ∧ _get_handler_for_job job example.w0 = (Ok 20, example.w0).
Proof.
  destruct (create_job_reports_to_its_handler example.w0 20 2 "H:7" "reverse" "u7" "abc")
    as (job & Hjob & _ & _ & _ & _ & Hh & _); [reflexivity..|].
  exists job. split; [exact Hjob|exact Hh].
Defined.

(** ** The job lock: when a call succeeds *)

(** X7.  [set_job_lock] never raises and never calls a collaborator.  It
    answers true exactly when the handler is known and the lock is in the
    state the request needs (free for an acquire, held by the requester for a
    release); then only the holder changes, and otherwise nothing does. *)
Theorem set_job_lock_succeeds_iff (h : Handler) (lock : bool) (w : GearmanWorker) :
  ∃ b : bool, set_job_lock h lock w
       = (Ok b, if b then set_holder (if lock then Some h else None) w else w)
    ∧ (b = true ↔
       h ∈ dom (handler_to_connection_map w)
       ∧ command_handler_holding_job_lock w = (if lock then None else Some h)).
Proof.
  destruct (decide (h ∈ dom (handler_to_connection_map w))) as [Hh|Hh].
  - destruct lock.
    + destruct (command_handler_holding_job_lock w) as [h'|] eqn:Hheld.
      * exists false. rewrite (set_job_lock_acquire_held _ h') by done.
        split; [done|]. split; [done|]. by intros [_ ?].
      * exists true. rewrite set_job_lock_acquire_free by done. by split.
    + destruct (decide (command_handler_holding_job_lock w = Some h)) as [Hheld|Hne].
      * exists true. rewrite set_job_lock_release_holder by done. by split.
      * exists false. rewrite set_job_lock_release_not_holder by done.
        split; [done|]. split; [done|]. by intros [_ ?].
  - exists false. rewrite set_job_lock_unknown by done.
    split; [done|]. split; [done|]. by intros [? _].
Qed.

(** X8.  After an acquire that succeeded, [check_job_lock] answers true for
    the acquiring handler and false for every other one; after a release that
    succeeded it answers false for every handler.  Before the call it
    answered, for the calling handler, the opposite of the request. *)
Theorem check_job_lock_after_set_job_lock (h : Handler) (lock : bool)
    (w w' : GearmanWorker)
    (Hset : set_job_lock h lock w = (Ok true, w')) :
  (∀ h', check_job_lock h' w' = lock && bool_decide (h' = h))
  ∧ check_job_lock h w = negb lock.
Proof.
  destruct (set_job_lock_cases h lock w)
    as [Hc|[(-> & _ & Hfree & Hc)|(-> & _ & Hheld & Hc)]];
    rewrite Hc in Hset; simplify_eq; unfold check_job_lock; simpl.
  - split.
    + intros h'. apply bool_decide_ext. split; congruence.
    + rewrite Hfree. by apply bool_decide_eq_false_2.
  - split.
    + intros h'. reflexivity.
    + by apply bool_decide_eq_true_2.
Qed.

Lemma check_job_lock_after_set_job_lock_witness :
  check_job_lock 10 (set_holder (Some 10) example.w0) = true
  ∧ check_job_lock 20 (set_holder (Some 10) example.w0) = false.
Proof.
  destruct (check_job_lock_after_set_job_lock 10 true example.w0
              (set_holder (Some 10) example.w0)) as [Hcheck _];
    [vm_compute; reflexivity|].
  split; [apply (Hcheck 10)|apply (Hcheck 20)].
Defined.

(** ** Registering, unregistering and running *)

Lemma register_function_run (w : GearmanWorker) (function_name : string)
    (callback_function : Callback) :
  register_function function_name callback_function w
  = (Ok function_name,
     add_trace
       (map (λ h, EvSetAbilities h
                    (keys (<[function_name := callback_function]> (worker_abilities w))))
            (keys (handler_to_connection_map w)))
       (set_worker_abilities (<[function_name := callback_function]>) w)).
Proof. unfold register_function. run. by rewrite broadcast_abilities_run. Qed.

Lemma unregister_function_run (w : GearmanWorker) (function_name : string) :
  unregister_function function_name w
  = (Ok function_name,
     add_trace
       (map (λ h, EvSetAbilities h (keys (delete function_name (worker_abilities w))))
            (keys (handler_to_connection_map w)))
       (set_worker_abilities (delete function_name) w)).
Proof. unfold unregister_function. run. by rewrite broadcast_abilities_run. Qed.

(** X9.  Registering a name that was not in the table and then
    unregistering it gives back the table as it was; in between the name
    maps to the callback given, and every handler is told of both
    changes. *)
Theorem unregister_after_register (w : GearmanWorker) (function_name : string)
    (callback_function : Callback)
    (Hfresh : worker_abilities w !! function_name = None) :
  ∃ w1 w2,
    register_function function_name callback_function w = (Ok function_name, w1)
    ∧ worker_abilities w1 !! function_name = Some callback_function
    ∧ unregister_function function_name w1 = (Ok function_name, w2)
    ∧ worker_abilities w2 = worker_abilities w
    ∧ length (trace w2)
      = length (trace w) + 2 * length (keys (handler_to_connection_map w)).
Proof.
  eexists _, _. split_and!.
  - apply register_function_run.
  - simpl. apply lookup_insert_eq.
  - apply unregister_function_run.
  - simpl. by apply delete_insert_id.
  - simpl. rewrite !length_app, !length_map. lia.
Qed.

Lemma unregister_after_register_witness :
  ∃ w1 w2,
    register_function "reverse" example.reverse_callback example.w0 = (Ok "reverse", w1)
    ∧ unregister_function "reverse" w1 = (Ok "reverse", w2)
    ∧ worker_abilities w2 = worker_abilities example.w0.
Proof.
  destruct (unregister_after_register example.w0 "reverse" example.reverse_callback)
    as (w1 & w2 & Hreg & _ & Hunreg & Htable & _); [reflexivity|].
  exists w1, w2. split_and!; [exact Hreg|exact Hunreg|exact Htable].
Defined.

(** X10.  After [register_function] for a name, whatever was registered
    under it before, a job for that name is run by the callback just
    registered: when the callback returns, [on_job_execute] returns true and
    sends its value as completion; when it raises an exception,
    [on_job_execute] returns false and sends a failure. *)
Theorem register_then_execute (w : GearmanWorker) (callback_function : Callback)
    (job : GearmanJob) (h : Handler)
    (Hh : connection_to_handler_map w !! conn job = Some h) :
  ∃ w1, register_function (func job) callback_function w = (Ok (func job), w1)
    ∧ (∀ v, callback_function job = CbReturn v →
         on_job_execute job w1 = (Ok true, log (EvSend h (WorkComplete job v)) w1))
    ∧ (∀ e, callback_function job = CbRaise e → isinstance_Exception e = true →
         on_job_execute job w1 = (Ok false, log (EvSend h (WorkFail job)) w1)).
Proof.
  eexists. split_and!.
  - apply register_function_run.
  - intros v Hout. eapply on_job_execute_callback_returns; [|done|done].
    simpl. apply lookup_insert_eq.
  - intros e Hout Hexc. eapply on_job_execute_callback_raises; [|done|done|done].
    simpl. apply lookup_insert_eq.
Qed.

Lemma register_then_execute_witness :
  ∃ w1, register_function "reverse" example.reverse_callback scenario.w_interrupted
        = (Ok "reverse", w1)
    ∧ on_job_execute example.reverse_job w1
      = (Ok true, log (EvSend 10 (WorkComplete example.reverse_job "cba")) w1).
Proof.
  destruct (register_then_execute scenario.w_interrupted example.reverse_callback
              example.reverse_job 10) as (w1 & Hreg & Hret & _); [reflexivity|].
  exists w1. split; [exact Hreg|]. apply Hret. reflexivity.
Defined.

(** X11.  After [unregister_function] for a name, a job for that name is no
    longer run: [on_job_execute] returns false and sends a failure, whatever
    callback the name had. *)
Theorem unregister_then_execute (w : GearmanWorker) (job : GearmanJob) (h : Handler)
    (Hh : connection_to_handler_map w !! conn job = Some h) :
  ∃ w1, unregister_function (func job) w = (Ok (func job), w1)
    ∧ on_job_execute job w1 = (Ok false, log (EvSend h (WorkFail job)) w1).
Proof.
  eexists. split.
  - apply unregister_function_run.
  - apply on_job_execute_lookup_fails; [|done].
    simpl. apply lookup_delete_eq.
Qed.

Lemma unregister_then_execute_witness :
  ∃ w1, unregister_function "reverse" example.w_reverse = (Ok "reverse", w1)
    ∧ on_job_execute example.reverse_job w1
      = (Ok false, log (EvSend 10 (WorkFail example.reverse_job)) w1).
Proof.
  destruct (unregister_then_execute example.w_reverse example.reverse_job 10)
    as (w1 & Hunreg & Hrun); [reflexivity|].
  exists w1. split; [exact Hunreg|exact Hrun].
Defined.

(** X12.  Registering a name that is already in the table replaces its
    callback and nothing else: the set of names stays the same, and every
    other name keeps its callback. *)
Theorem register_function_overwrites (w : GearmanWorker) (function_name : string)
    (callback_function : Callback)
    (Hold : is_Some (worker_abilities w !! function_name)) :
  ∃ w1, register_function function_name callback_function w = (Ok function_name, w1)
    ∧ worker_abilities w1 !! function_name = Some callback_function
    ∧ dom (worker_abilities w1) = dom (worker_abilities w)
    ∧ (∀ other, other ≠ function_name →
         worker_abilities w1 !! other = worker_abilities w !! other).
Proof.
  eexists. split_and!.
  - apply register_function_run.
  - simpl. apply lookup_insert_eq.
  - simpl. by apply dom_insert_lookup_L.
  - intros other Hne. simpl. by apply lookup_insert_ne.
Qed.

Lemma register_function_overwrites_witness :
  ∃ w1, register_function "reverse" example.failing_callback example.w_reverse
        = (Ok "reverse", w1)
    ∧ worker_abilities w1 !! "reverse" = Some example.failing_callback
    ∧ dom (worker_abilities w1) = dom (worker_abilities example.w_reverse).
Proof.
  destruct (register_function_overwrites example.w_reverse "reverse" example.failing_callback)
    as (w1 & Hreg & Hnew & Hdom & _); [by eexists|].
  exists w1. split_and!; [exact Hreg|exact Hnew|exact Hdom].
Defined.

(** ** The reconnect pass: further cases *)

Lemma filter_all {A} (P : A → Prop) `{∀ x, Decision (P x)} (l : list A) :
  (∀ x, x ∈ l → P x) → filter P l = l.
Proof.
  induction l as [|x l IH]; intros Hall; [done|].
  rewrite filter_cons_True by (apply Hall, list_elem_of_here).
  f_equal. apply IH. intros y Hy. by apply Hall, list_elem_of_further.
Qed.

Lemma filter_none {A} (P : A → Prop) `{∀ x, Decision (P x)} (l : list A) :
  (∀ x, x ∈ l → ¬ P x) → filter P l = [].
Proof.
  induction l as [|x l IH]; intros Hnone; [done|].
  rewrite filter_cons_False by (apply Hnone, list_elem_of_here).
  apply IH. intros y Hy. by apply Hnone, list_elem_of_further.
Qed.

Lemma reconnect_up (c : Connection) (w : GearmanWorker) :
  c ∈ connected w → reconnect c w = (Ok tt, w).
Proof.
  intros Hup. unfold reconnect, connection.is_connected. run.
  by rewrite bool_decide_eq_true_2.
Qed.

Lemma reconnect_refused (c : Connection) (w : GearmanWorker) :
  c ∉ connected w → c ∉ reachable w →
  reconnect c w = (Ok tt, log (EvConnect c false) w).
Proof.
  intros Hdown Hrefuse. unfold reconnect, connection.is_connected, connection.connect.
  run. rewrite bool_decide_eq_false_2 by done. simpl.
  by rewrite bool_decide_eq_false_2.
Qed.

(** A pass over connections each of which is up or refuses: no handler is
    looked up, no socket changes, and the calls made are refused connects. *)
Lemma for_each_reconnect_quiet (l : list Connection) (w : GearmanWorker) :
  (∀ c, c ∈ l → c ∈ connected w ∨ c ∉ reachable w) →
  ∃ w', for_each l reconnect w = (Ok tt, w')
    ∧ reconnect_frame w w'
    ∧ connected w' = connected w
    ∧ rng w' = rng w
    ∧ ∃ evs, trace w' = trace w ++ evs
             ∧ Forall (λ e, ∃ c, e = EvConnect c false ∧ c ∈ l ∧ c ∉ connected w) evs
             ∧ ((∀ c, c ∈ l → c ∈ connected w) → evs = []).
Proof.
  revert w. induction l as [|c l IH]; intros w Hquiet; simpl.
  - exists w. split_and!; [done|apply reconnect_frame_refl|done|done|].
    exists []. split_and!; [by rewrite (right_id_L [] (++))|done|done].
  - assert (Hl : ∀ w1, connected w1 = connected w → reachable w1 = reachable w →
                ∀ c', c' ∈ l → c' ∈ connected w1 ∨ c' ∉ reachable w1).
    { intros w1 -> -> c' Hc'. by apply Hquiet, list_elem_of_further. }
    run. destruct (decide (c ∈ connected w)) as [Hup|Hdown].
    + rewrite reconnect_up by done.
      destruct (IH w (Hl w eq_refl eq_refl))
        as (w' & Hrun & Hframe & Hconn & Hrng & evs & Htr & Hevs & Hnil).
      rewrite Hrun. exists w'. split_and!; [done..|].
      exists evs. split_and!; [done| |].
      * eapply Forall_impl; [exact Hevs|]. intros e (c' & -> & Hc' & Hdown).
        exists c'. split_and!; [done|by apply list_elem_of_further|done].
      * intros Hall. apply Hnil. intros c' Hc'. by apply Hall, list_elem_of_further.
    + destruct (Hquiet c (list_elem_of_here _ _)) as [?|Hrefuse]; [done|].
      rewrite reconnect_refused by done.
      destruct (IH (log (EvConnect c false) w) (Hl _ eq_refl eq_refl))
        as (w' & Hrun & Hframe & Hconn & Hrng & evs & Htr & Hevs & Hnil).
      rewrite Hrun. exists w'. split_and!; [done| |done|done|].
      * eapply reconnect_frame_trans; [|exact Hframe]. by apply reconnect_frame_log.
      * exists (EvConnect c false :: evs). split_and!.
        -- rewrite Htr. simpl. by rewrite <- (assoc_L (++)).
        -- constructor.
           ++ exists c. split_and!; [done|apply list_elem_of_here|done].
           ++ eapply Forall_impl; [exact Hevs|]. intros e (c' & -> & Hc' & Hdown').
              exists c'. split_and!; [done|by apply list_elem_of_further|done].
        -- intros Hall. by destruct (Hdown (Hall c (list_elem_of_here _ _))).
Qed.

(** When [reconnect] raises: the socket was down, the server accepted, and
    the connection has no handler. *)
Lemma reconnect_raises_iff (c : Connection) (w : GearmanWorker) :
  (∃ e w', reconnect c w = (Raise e, w'))
  ↔ (c ∉ connected w) ∧ c ∈ reachable w ∧ connection_to_handler_map w !! c = None.
Proof.
  unfold reconnect, connection.is_connected, connection.connect. run.
  case_bool_decide as Hup; simpl.
  - split; [by intros (? & ? & [=])|by intros [? _]].
  - case_bool_decide as Hreach; simpl.
    + destruct (connection_to_handler_map w !! c) as [h|] eqn:Hh; run.
      * split; [by intros (? & ? & [=])|by intros (_ & _ & [=])].
      * split; [done|]. intros _. by eexists _, _.
    + split; [by intros (? & ? & [=])|by intros (_ & ? & _)].
Qed.

Lemma for_each_reconnect_raises_iff (l : list Connection) (w : GearmanWorker) :
  (∃ e w', for_each l reconnect w = (Raise e, w'))
  ↔ ∃ c, c ∈ l ∧ (c ∉ connected w) ∧ c ∈ reachable w
         ∧ connection_to_handler_map w !! c = None.
Proof.
  revert w. induction l as [|c0 l IH]; intros w; simpl.
  - split; [by intros (? & ? & [=])|].
    intros (c & Hc & _). by apply not_elem_of_nil in Hc.
  - destruct (reconnect_run c0 w) as (r1 & w1 & Hrun1 & Hframe1 & Hup1 & _ & _).
    pose proof (reconnect_raises_iff c0 w) as Hiff0. rewrite Hrun1 in Hiff0.
    run. rewrite Hrun1. destruct r1 as [[]|e1].
    + rewrite IH.
      destruct Hframe1 as (_ & Hmap & _ & _ & _ & _ & Hreach & _).
      rewrite Hmap, Hreach, Hup1. split.
      * intros (c & Hc & Hdown & Hacc & Hnone). exists c.
        split_and!; [by apply list_elem_of_further|set_solver|done|done].
      * intros (c & Hc & Hdown & Hacc & Hnone).
        apply elem_of_cons in Hc as [->|Hc].
        -- destruct Hiff0 as [_ Hraise].
           by destruct (Hraise (conj Hdown (conj Hacc Hnone))) as (? & ? & [=]).
        -- exists c. split_and!; [done| |done|done].
           assert (c ≠ c0).
           { intros ->. destruct Hiff0 as [_ Hraise].
             by destruct (Hraise (conj Hdown (conj Hacc Hnone))) as (? & ? & [=]). }
           set_solver.
    + split; [|by eexists _, _].
      intros _. exists c0. destruct Hiff0 as [Hbad _].
      destruct Hbad as (? & ? & ?); [by eexists _, _|].
      split_and!; [apply list_elem_of_here|done..].
Qed.

(** Whatever its outcome, a pass brings no socket down and brings up only
    sockets of its list whose server accepts. *)
Lemma for_each_reconnect_sockets (l : list Connection) (w : GearmanWorker) :
  ∃ r w', for_each l reconnect w = (r, w')
    ∧ connected w ⊆ connected w'
    ∧ connected w' ⊆ connected w ∪ (list_to_set l ∩ reachable w).
Proof.
  revert w. induction l as [|c l IH]; intros w; simpl.
  - eexists _, _. split_and!; [done|set_solver..].
  - destruct (reconnect_run c w) as (r1 & w1 & Hrun1 & Hframe1 & Hup1 & _ & _).
    run. rewrite Hrun1. destruct r1 as [[]|e1].
    + destruct (IH w1) as (r2 & w2 & Hrun2 & Hlow & Hhigh).
      rewrite Hrun2. eexists _, _. split; [done|].
      destruct Hframe1 as (_ & _ & _ & _ & _ & _ & Hreach & _).
      rewrite Hreach, Hup1 in Hhigh. rewrite Hup1 in Hlow. set_solver.
    + eexists _, _. split; [done|]. rewrite Hup1. set_solver.
Qed.

Section AliveConnectionsMore.

Variable shuffle : nat → list Connection → list Connection * nat.
Hypothesis shuffle_permutes : ∀ g l, (shuffle g l).1 ≡ₚ l.

(** X13.  When every connection of the list is already connected,
    [get_alive_connections] calls nothing (no [connect], no [on_connect]),
    looks up no handler, and returns the whole list in shuffled order; only
    the random generator has moved. *)
Theorem get_alive_connections_all_up (w : GearmanWorker)
    (Hup : ∀ c, c ∈ connection_list w → c ∈ connected w) :
  get_alive_connections shuffle w
  = (Ok (shuffle (rng w) (connection_list w)).1,
     set_rng (shuffle (rng w) (connection_list w)).2 w)
  ∧ (shuffle (rng w) (connection_list w)).1 ≡ₚ connection_list w.
Proof.
  split; [|apply shuffle_permutes].
  pose proof (shuffle_permutes (rng w) (connection_list w)) as Hperm.
  unfold get_alive_connections, random_shuffle. run.
  destruct (shuffle (rng w) (connection_list w)) as [l g] eqn:Hsh. simpl in *.
  assert (Hl : ∀ c, c ∈ l → c ∈ connected (set_rng g w)).
  { intros c Hc. simpl. apply Hup. by rewrite <- Hperm. }
  destruct (for_each_reconnect_quiet l (set_rng g w))
    as (w' & Hrun & _ & Hconn & Hrng & evs & Htr & _ & Hnil); [by left; apply Hl|].
  rewrite Hrun. specialize (Hnil Hl). subst evs.
  rewrite (right_id_L [] (++)) in Htr.
  assert (w' = set_rng g w) as ->.
  { destruct (for_each_reconnect_run l (set_rng g w))
      as (r & w'' & Hrun' & Hframe & _).
    rewrite Hrun in Hrun'. injection Hrun' as _ <-.
    destruct Hframe as (? & ? & ? & ? & ? & ? & ? & ? & _).
    destruct w'; simpl in *. unfold set_rng; simpl. congruence. }
  f_equal. f_equal. apply filter_all.
  intros c Hc. unfold connection.is_connected. by apply bool_decide_eq_true_2, Hl.
Qed.

(** X14.  [get_alive_connections] raises exactly when some connection of
    the list is down, has a server that accepts, and has no handler in the
    connection-to-handler map; what it raises then is the [AttributeError] of
    calling [on_connect] on the [None] that [dict.get] returned. *)
Theorem get_alive_connections_raises_iff (w : GearmanWorker) :
  ((∃ e w', get_alive_connections shuffle w = (Raise e, w'))
   ↔ ∃ c, c ∈ connection_list w ∧ (c ∉ connected w) ∧ c ∈ reachable w
          ∧ connection_to_handler_map w !! c = None)
  ∧ (∀ e w', get_alive_connections shuffle w = (Raise e, w') →
             ∃ msg, e = AttributeError msg).
Proof.
  split.
  - pose proof (shuffle_permutes (rng w) (connection_list w)) as Hperm.
    unfold get_alive_connections, random_shuffle. run.
    destruct (shuffle (rng w) (connection_list w)) as [l g] eqn:Hsh. simpl in *.
    pose proof (for_each_reconnect_raises_iff l (set_rng g w)) as Hiff.
    destruct (for_each l reconnect (set_rng g w)) as [[[]|e] w1] eqn:Hrun.
    + split; [by intros (? & ? & [=])|].
      intros (c & Hc & Hbad). destruct Hiff as [_ Hraise].
      destruct Hraise as (? & ? & [=]). exists c. by rewrite Hperm.
    + split; [|by eexists _, _]. intros _.
      destruct Hiff as [Hbad _].
      destruct Hbad as (c & Hc & Hbad); [by eexists _, _|].
      exists c. by rewrite <- Hperm.
  - intros e w' Hrun.
    destruct (get_alive_connections_run shuffle w) as (r & w1 & Hrun1 & _ & _ & _ & Hexn).
    rewrite Hrun in Hrun1. injection Hrun1 as <- <-. by apply Hexn.
Qed.

(** X15.  Whatever its outcome, [get_alive_connections] leaves the
    connection list, both maps, the abilities and the job lock as they were,
    calls nothing but [connect] and [on_connect], brings no socket down, and
    brings up only sockets of the list whose server accepts. *)
Theorem get_alive_connections_only_connects (w : GearmanWorker) :
  ∃ r w', get_alive_connections shuffle w = (r, w')
    ∧ connection_list w' = connection_list w
    ∧ connection_to_handler_map w' = connection_to_handler_map w
    ∧ handler_to_connection_map w' = handler_to_connection_map w
    ∧ worker_abilities w' = worker_abilities w
    ∧ command_handler_holding_job_lock w' = command_handler_holding_job_lock w
    ∧ (∃ evs, trace w' = trace w ++ evs
              ∧ Forall (λ e, is_connect_event e = true) evs)
    ∧ connected w ⊆ connected w'
    ∧ connected w' ⊆ connected w ∪ (list_to_set (connection_list w) ∩ reachable w).
Proof.
  destruct (get_alive_connections_run shuffle w) as (r & w' & Hrun & Hframe & _).
  exists r, w'. destruct Hframe as (? & ? & ? & ? & _ & ? & _ & _ & ?).
  split_and!; try done.
  - pose proof (shuffle_permutes (rng w) (connection_list w)) as Hperm.
    revert Hrun. unfold get_alive_connections, random_shuffle. run.
    destruct (shuffle (rng w) (connection_list w)) as [l g] eqn:Hsh. simpl in *.
    destruct (for_each_reconnect_sockets l (set_rng g w)) as (r1 & w1 & Hrun1 & Hlow & _).
    rewrite Hrun1. destruct r1 as [[]|e]; intros [= <- <-]; done.
  - pose proof (shuffle_permutes (rng w) (connection_list w)) as Hperm.
    revert Hrun. unfold get_alive_connections, random_shuffle. run.
    destruct (shuffle (rng w) (connection_list w)) as [l g] eqn:Hsh. simpl in *.
    destruct (for_each_reconnect_sockets l (set_rng g w)) as (r1 & w1 & Hrun1 & _ & Hhigh).
    rewrite Hrun1. simpl in Hhigh.
    assert (Hset : (list_to_set l : gset Connection) = list_to_set (connection_list w)).
    { apply set_eq. intros c. by rewrite !elem_of_list_to_set, Hperm. }
    rewrite Hset in Hhigh.
    destruct r1 as [[]|e]; intros [= <- <-]; done.
Qed.

(** X16.  When every connection of the list has its handler, a second
    [get_alive_connections] right after the first brings up no further
    socket, calls [on_connect] on no handler, only tries again the
    connections that refused, and yields the same connections as the first,
    up to the order of the shuffle. *)
Theorem get_alive_connections_second_pass (w : GearmanWorker)
    (Hwf : ∀ c, c ∈ connection_list w → is_Some (connection_to_handler_map w !! c)) :
  ∃ alive1 w1 alive2 w2,
    get_alive_connections shuffle w = (Ok alive1, w1)
    ∧ get_alive_connections shuffle w1 = (Ok alive2, w2)
    ∧ connected w2 = connected w1
    ∧ alive2 ≡ₚ alive1
    ∧ ∃ evs, trace w2 = trace w1 ++ evs
             ∧ Forall (λ e, ∃ c, e = EvConnect c false ∧ c ∉ reachable w) evs.
Proof.
  destruct (get_alive_connections_run shuffle w)
    as (r & w1 & Hrun1 & Hframe & Hfilter & Hok & _).
  destruct Hok as [[alive1 ->] Hup].
  { intros c Hc. apply Hwf. by rewrite <- (shuffle_permutes (rng w)). }
  specialize (Hfilter alive1 eq_refl).
  destruct Hframe as (Hlist & _ & _ & _ & _ & _ & Hreach & _).
  pose proof (shuffle_permutes (rng w) (connection_list w)) as Hperm1.
  pose proof (shuffle_permutes (rng w1) (connection_list w1)) as Hperm2.
  exists alive1, w1.
  unfold get_alive_connections at 2, random_shuffle. run.
  destruct (shuffle (rng w1) (connection_list w1)) as [l2 g2] eqn:Hsh2. simpl in *.
  assert (Hquiet : ∀ c, c ∈ l2 →
            c ∈ connected (set_rng g2 w1) ∨ c ∉ reachable (set_rng g2 w1)).
  { intros c Hc. simpl. rewrite Hreach.
    destruct (decide (c ∈ reachable w)) as [Hacc|Hrefuse]; [left|by right].
    rewrite Hup. apply elem_of_union_r, elem_of_intersection. split; [|done].
    apply elem_of_list_to_set. rewrite Hperm1, <- Hlist. by rewrite <- Hperm2. }
  destruct (for_each_reconnect_quiet l2 (set_rng g2 w1) Hquiet)
    as (w2 & Hrun2 & _ & Hconn & _ & evs & Htr & Hevs & _).
  rewrite Hrun2. eexists _, w2. split_and!; [done|done|done| |].
  - rewrite Hfilter.
    rewrite (list_filter_iff _ (λ c, connection.is_connected c w1 = true)).
    + apply filter_Permutation. by rewrite Hperm2, Hlist, Hperm1.
    + intros c. unfold connection.is_connected. by rewrite Hconn.
  - exists evs. split; [done|].
    eapply Forall_impl; [exact Hevs|]. intros e (c & -> & Hc & Hdown).
    exists c. split; [done|]. intros Hacc. apply Hdown. simpl.
    rewrite Hup. apply elem_of_union_r, elem_of_intersection. split; [|done].
    apply elem_of_list_to_set. rewrite Hperm1, <- Hlist. by rewrite <- Hperm2.
Qed.

End AliveConnectionsMore.

Lemma get_alive_connections_all_up_witness :
  get_alive_connections example.shuffle_reverse scenario.w_up
  = (Ok [2; 1], set_rng 1 scenario.w_up).
Proof.
  destruct (get_alive_connections_all_up example.shuffle_reverse) with (w := scenario.w_up)
    as [Hrun _].
  - intros g l. apply reverse_Permutation.
  - intros c Hc. vm_compute in Hc. vm_compute.
    apply elem_of_cons in Hc as [->|Hc]; [set_solver|].
    apply elem_of_cons in Hc as [->|Hc]; [set_solver|].
    by apply not_elem_of_nil in Hc.
  - exact Hrun.
Defined.

Lemma get_alive_connections_raises_iff_witness :
  ∃ e w', get_alive_connections example.shuffle_reverse scenario.w_unhandled = (Raise e, w').
Proof.
  destruct (get_alive_connections_raises_iff example.shuffle_reverse) with (w := scenario.w_unhandled)
    as [[_ Hraise] _].
  - intros g l. apply reverse_Permutation.
  - apply Hraise. exists 3. split_and!.
    + vm_compute. set_solver.
    + vm_compute. set_solver.
    + vm_compute. set_solver.
    + reflexivity.
Defined.

Lemma get_alive_connections_only_connects_witness :
  ∃ r w', get_alive_connections example.shuffle_reverse example.w0 = (r, w')
    ∧ command_handler_holding_job_lock w' = command_handler_holding_job_lock example.w0
    ∧ connected example.w0 ⊆ connected w'.
Proof.
  destruct (get_alive_connections_only_connects example.shuffle_reverse) with (w := example.w0)
    as (r & w' & Hrun & _ & _ & _ & _ & Hlock & _ & Hlow & _).
  - intros g l. apply reverse_Permutation.
  - exists r, w'. split_and!; [exact Hrun|exact Hlock|exact Hlow].
Defined.

Lemma get_alive_connections_second_pass_witness :
  ∃ alive1 w1 alive2 w2,
    get_alive_connections example.shuffle_reverse example.w0 = (Ok alive1, w1)
    ∧ get_alive_connections example.shuffle_reverse w1 = (Ok alive2, w2)
    ∧ connected w2 = connected w1.
Proof.
  destruct (get_alive_connections_second_pass example.shuffle_reverse) with (w := example.w0)
    as (alive1 & w1 & alive2 & w2 & Hrun1 & Hrun2 & Hconn & _).
  - intros g l. apply reverse_Permutation.
  - intros c Hc. vm_compute in Hc.
    apply elem_of_cons in Hc as [->|Hc]; [by eexists|].
    apply elem_of_cons in Hc as [->|Hc]; [by eexists|].
    by apply not_elem_of_nil in Hc.
  - exists alive1, w1, alive2, w2. split_and!; [exact Hrun1|exact Hrun2|exact Hconn].
Defined.

(** ** The loop: hooks of [GearmanWorker] itself, and no server at all *)

Section WorkLoopMore.

Variable shuffle : nat → list Connection → list Connection * nat.
Variable self_poll_connections_once :
  list Connection → Q → GearmanWorker → bool * GearmanWorker.
Variable poll_timeout : Q.



Hypothesis shuffle_permutes : ∀ g l, (shuffle g l).1 ≡ₚ l.

Variable self_before_poll : GearmanWorker → bool * GearmanWorker.
Variable self_after_poll : bool → GearmanWorker → bool * GearmanWorker.

(** X18.  When no connection of the list is up and no server accepts (in
    particular when the list is empty), [work] ends in its first pass with
    [ServerUnavailable] carrying the connection list, whatever the hooks and
    the poll are: they are not called, no handler is looked up, no socket
    changes, and the only calls made are the refused connects. *)
Theorem work_no_server (w : GearmanWorker)
    (Hdown : ∀ c, c ∈ connection_list w → (c ∉ connected w) ∧ (c ∉ reachable w)) :
  ∃ w', work shuffle self_before_poll self_after_poll self_poll_connections_once
          1 poll_timeout w
        = Some (Raise (ServerUnavailable (connection_list w)), w')
    ∧ connected w' = connected w
    ∧ ∃ evs, trace w' = trace w ++ evs
             ∧ Forall (λ e, ∃ c, e = EvConnect c false ∧ c ∈ connection_list w) evs.
Proof.
  pose proof (shuffle_permutes (rng w) (connection_list w)) as Hperm.
  assert (Halive : ∃ w1, get_alive_connections shuffle w = (Ok [], w1)
            ∧ connected w1 = connected w ∧ connection_list w1 = connection_list w
            ∧ ∃ evs, trace w1 = trace w ++ evs
                ∧ Forall (λ e, ∃ c, e = EvConnect c false ∧ c ∈ connection_list w) evs).
  { unfold get_alive_connections, random_shuffle. run.
    destruct (shuffle (rng w) (connection_list w)) as [l g] eqn:Hsh. simpl in *.
    destruct (for_each_reconnect_quiet l (set_rng g w))
      as (w1 & Hrun & Hframe & Hconn & _ & evs & Htr & Hevs & _).
    { intros c Hc. right. simpl. apply Hdown. by rewrite <- Hperm. }
    rewrite Hrun. exists w1. split_and!; [|done|by destruct Hframe|].
    - f_equal. f_equal. apply filter_none. intros c Hc.
      unfold connection.is_connected. rewrite Hconn. simpl.
      rewrite bool_decide_eq_false_2; [done|]. apply Hdown. by rewrite <- Hperm.
    - exists evs. split; [done|].
      eapply Forall_impl; [exact Hevs|]. intros e (c & -> & Hc & _).
      exists c. split; [done|]. by rewrite <- Hperm. }
  destruct Halive as (w1 & Halive & Hconn & Hlist & Hevs).
  exists w1. split_and!; [|done|done].
  unfold work. simpl.
  destruct (work_iteration_cases shuffle self_before_poll self_after_poll
              self_poll_connections_once poll_timeout w)
    as [(e0 & w2 & Ha & Hi)|[(w2 & Ha & Hi)|(alive & w2 & ctl & w3 & Ha & Hne & Hi)]];
    rewrite Halive in Ha; simplify_eq.
  rewrite Hi. by rewrite Hlist.
Qed.

End WorkLoopMore.


Lemma work_no_server_witness :
  ∃ w', work example.shuffle_reverse example.stop_before_poll example.stop_after_poll
          example.idle_poll 1 POLL_TIMEOUT_IN_SECONDS example.w_down
        = Some (Raise (ServerUnavailable [1; 2]), w')
    ∧ connected w' = ∅.
Proof.
  destruct (work_no_server example.shuffle_reverse example.idle_poll POLL_TIMEOUT_IN_SECONDS)
    with (self_before_poll := example.stop_before_poll)
         (self_after_poll := example.stop_after_poll) (w := example.w_down)
    as (w' & Hwork & Hconn & _).
  - intros g l. apply reverse_Permutation.
  - intros c Hc. vm_compute. set_solver.
  - exists w'. split; [exact Hwork|exact Hconn].
Defined.

(** ** A worker just constructed *)

(** X19.  After [__init__] the worker has no ability, no client id and a
    free job lock: [check_job_lock] is false for every handler, a release
    fails for every handler, an acquire succeeds for every known handler, and
    every job that arrives before a registration is answered with one
    failure message; connection list and maps are those of the connection
    manager. *)
Theorem fresh_worker (base : GearmanWorker) :
  worker_abilities (__init__ base) = ∅
  ∧ worker_client_id (__init__ base) = None
  ∧ connection_list (__init__ base) = connection_list base
  ∧ connection_to_handler_map (__init__ base) = connection_to_handler_map base
  ∧ handler_to_connection_map (__init__ base) = handler_to_connection_map base
  ∧ (∀ h, check_job_lock h (__init__ base) = false)
  ∧ (∀ h, set_job_lock h false (__init__ base) = (Ok false, __init__ base))
  ∧ (∀ h, h ∈ dom (handler_to_connection_map base) →
          set_job_lock h true (__init__ base)
          = (Ok true, set_holder (Some h) (__init__ base)))
  ∧ (∀ job h, connection_to_handler_map base !! conn job = Some h →
          on_job_execute job (__init__ base)
          = (Ok false, log (EvSend h (WorkFail job)) (__init__ base))).
Proof.
  split_and!; try done.
  - intros h. by apply set_job_lock_release_not_holder.
  - intros h Hh. by apply set_job_lock_acquire_free.
  - intros job h Hh. by apply on_job_execute_lookup_fails.
Qed.

(** ** The errors of [errors.py] inside a callback *)

Lemma GearmanError_is_Exception (e : exn) :
  isinstance_GearmanError e = true → isinstance_Exception e = true.
Proof. by destruct e. Qed.

(** X20.  Every class of [errors.py] derives from [Exception] through
    [GearmanError]; so when a registered callback raises any of them (a
    [ConnectionError] or [ServerUnavailable] of its own, say),
    [on_job_execute] does not let it through: it sends one failure message
    and returns false. *)
Theorem gearman_error_in_callback_is_job_failure (w : GearmanWorker)
    (job : GearmanJob) (cb : Callback) (e : exn) (h : Handler)
    (Hcb : worker_abilities w !! func job = Some cb)
    (Hh : connection_to_handler_map w !! conn job = Some h)
    (Hout : cb job = CbRaise e)
    (Hclass : isinstance_GearmanError e = true) :
  isinstance_Exception e = true
  ∧ on_job_execute job w = (Ok false, log (EvSend h (WorkFail job)) w).
Proof.
  pose proof (GearmanError_is_Exception e Hclass) as Hexc.
  split; [done|]. by eapply on_job_execute_callback_raises.
Qed.

Lemma gearman_error_in_callback_is_job_failure_witness :
  on_job_execute example.reverse_job scenario.w_unavailable
  = (Ok false, log (EvSend 10 (WorkFail example.reverse_job)) scenario.w_unavailable).
Proof.
  destruct (gearman_error_in_callback_is_job_failure scenario.w_unavailable
              example.reverse_job scenario.unavailable_callback (ServerUnavailable []) 10)
    as [_ Hrun]; [reflexivity..|].
  exact Hrun.
Defined.
